(** * NeMo model-parallel overrides: checkpoint writer, gradient scaler, data fetcher

    A shallow embedding of [nemo/collections/nlp/parts/nlp_overrides.py]:

    - [NLPSaveRestoreConnector.save_to], the rank-partitioned checkpoint
      writer, as a program in a small effect monad that logs every call it
      makes to a collaborator (file system, distributed runtime, logger);
    - [GradScaler._maybe_opt_step] and [GradScaler.update], the scale
      controller, as functions on an explicit scaler state;
    - [GlobalBatchDataFetcher], the global-batch fetcher, as a function on an
      explicit fetcher state whose iterator is the list of remaining items. *)

From Stdlib Require Import List ZArith String Ascii Lia Bool Arith.
From Stdlib Require Import DecimalString DecimalNat.
From Stdlib Require QArith FinFun SpecFloat.
Import ListNotations.

Set Implicit Arguments.
Local Open Scope string_scope.
Local Open Scope list_scope.

(** ** Python built-ins used by the source *)

Module Py.

(** [f'{n:02d}'] for a non-negative int: decimal, zero-padded to width 2. *)
Definition format_02d (n : nat) : string :=
  let s := NilZero.string_of_uint (Nat.to_uint n) in
  if (String.length s <? 2)%nat then ("0" ++ s)%string else s.

(** Reads a decimal numeral back; used only to show [format_02d] injective. *)
Definition parse_decimal (s : string) : option nat :=
  option_map Nat.of_uint (NilEmpty.uint_of_string s).

Definition is_empty (s : string) : bool :=
  match s with EmptyString => true | _ => false end.

(** [s.startswith('/')] *)
Definition startswith_sep (s : string) : bool :=
  match s with String "/" _ => true | _ => false end.

(** [s.endswith('/')] *)
Fixpoint endswith_sep (s : string) : bool :=
  match s with
  | EmptyString => false
  | String c EmptyString => Ascii.eqb c "/"
  | String _ r => endswith_sep r
  end.

(** One round of the loop of [posixpath.join]. *)
Definition join_step (path b : string) : string :=
  if startswith_sep b then b
  else if is_empty path || endswith_sep path then (path ++ b)%string
  else (path ++ "/" ++ b)%string.

(** [os.path.join(a, *p)] *)
Definition os_path_join (a : string) (p : list string) : string :=
  fold_left join_step p a.

Fixpoint contains_sep (s : string) : bool :=
  match s with
  | EmptyString => false
  | String c r => Ascii.eqb c "/" || contains_sep r
  end.

Fixpoint all_sep (s : string) : bool :=
  match s with
  | EmptyString => true
  | String c r => Ascii.eqb c "/" && all_sep r
  end.

(** [p[:p.rfind('/') + 1]] *)
Fixpoint upto_last_sep (p : string) : string :=
  match p with
  | EmptyString => EmptyString
  | String c r => if contains_sep p then String c (upto_last_sep r) else EmptyString
  end.

(** [s.rstrip('/')] *)
Fixpoint rstrip_sep (s : string) : string :=
  match s with
  | EmptyString => EmptyString
  | String c r => if all_sep s then EmptyString else String c (rstrip_sep r)
  end.

(** [os.path.dirname(p)] *)
Definition os_path_dirname (p : string) : string :=
  let head := upto_last_sep p in
  if negb (is_empty head) && negb (all_sep head) then rstrip_sep head else head.

(** [range(n)] *)
Definition range (n : nat) : list nat := seq 0 n.

End Py.

(** ** Process-wide coordinate state *)

(** The fields of [AppState()] that [save_to] reads.  [model_parallel_size]
    is [None] when no model-parallel grid is configured. *)
Record AppState := {
  model_parallel_size : option nat;
  pipeline_model_parallel_size : nat;
  tensor_model_parallel_size : nat;
  tensor_model_parallel_rank : nat;
  data_parallel_rank : nat
}.

(** What a worker sees of its surroundings during one [save_to]. *)
Record Env := {
  app_state : AppState;
  (** [torch.distributed.is_initialized()] *)
  dist_is_initialized : bool;
  (** the name [tempfile.TemporaryDirectory()] hands out *)
  fresh_tmpdir : string
}.

(** The model being saved.  [artifacts] is [None] when the model has no such
    attribute, [Some None] when the attribute is [None]. *)
Record Model := {
  state_dict : string;
  artifacts : option (option (list string))
}.

Record NLPSaveRestoreConnector := {
  model_weights_ckpt : string;
  model_config_yaml : string
}.

(** ** Calls to collaborators *)

Inductive action : Type :=
| save_state_dict_to_disk (sd : string) (path : string)
| dist_barrier
| TemporaryDirectory_enter (tmpdir : string)
| TemporaryDirectory_exit (tmpdir : string)
| os_makedirs (path : string)
| shutil_move (src dst : string)
| to_config_file (path2yaml_file : string)
| handle_artifacts (nemo_file_folder : string)
| update_artifact_paths (path2yaml_file : string)
| make_nemo_file_from_folder (filename source_dir : string)
| logging_info (msg : string)
| super_save_to (save_path : string).

(** ** The effect monad

    A computation extends the log of calls made so far and either returns a
    value or propagates an exception ([None]).  Which calls raise is decided
    by the oracle [raises]; the raising call is still logged. *)

Section Effects.

Variable raises : action -> bool.

Definition M (A : Type) : Type := list action -> list action * option A.

Definition ret {A} (a : A) : M A := fun log => (log, Some a).

Definition bind {A B} (m : M A) (k : A -> M B) : M B :=
  fun log =>
    match m log with
    | (log', Some a) => k a log'
    | (log', None) => (log', None)
    end.

Definition call (a : action) : M unit :=
  fun log => (log ++ [a], if raises a then None else Some tt).

Definition skip : M unit := ret tt.

(** [for x in xs: body(x)] *)
Fixpoint for_each {A} (xs : list A) (body : A -> M unit) : M unit :=
  match xs with
  | [] => skip
  | x :: rest => bind (body x) (fun _ => for_each rest body)
  end.

(** [with tempfile.TemporaryDirectory() as tmpdir: body]; the directory is
    removed on the way out, also when [body] raises. *)
Definition with_TemporaryDirectory {A} (tmpdir : string) (body : M A) : M A :=
  fun log =>
    match call (TemporaryDirectory_enter tmpdir) log with
    | (log1, Some _) =>
        let '(log2, r) := body log1 in
        match call (TemporaryDirectory_exit tmpdir) log2 with
        | (log3, Some _) => (log3, r)
        | (log3, None) => (log3, None)
        end
    | (log1, None) => (log1, None)
    end.

Notation "m1 ;; m2" := (bind m1 (fun _ => m2))
  (at level 61, right associativity).

Definition not_implemented_msg : string :=
  "Saving .nemo for pipeline parallel is not implemented yet. Please use a conversion script.".

(** [app_state.model_parallel_size is not None and app_state.model_parallel_size > 1] *)
Definition model_parallel_in_use (a : AppState) : bool :=
  match model_parallel_size a with
  | Some m => (1 <? m)%nat
  | None => false
  end.

(** [hasattr(model, 'artifacts') and model.artifacts is not None] *)
Definition has_artifacts (model : Model) : bool :=
  match artifacts model with
  | Some (Some _) => true
  | _ => false
  end.

(** The rank-tagged name a shard is first written under:
    [os.path.join(dir_name, f'mp_rank_{tp_rank:02d}_' + self.model_weights_ckpt)]. *)
Definition mp_model_weights (self : NLPSaveRestoreConnector) (dir_name : string) (tp_rank : nat) : string :=
  Py.os_path_join dir_name
    [("mp_rank_" ++ Py.format_02d tp_rank ++ "_" ++ model_weights_ckpt self)%string].

(** [os.path.join(tmpdir, f'mp_rank_{tp_rank:02d}')] *)
Definition mp_rank_dir (tmpdir : string) (tp_rank : nat) : string :=
  Py.os_path_join tmpdir [("mp_rank_" ++ Py.format_02d tp_rank)%string].

(** [os.path.join(tmpdir, f'mp_rank_{tp_rank:02d}', self.model_weights_ckpt)] *)
Definition mp_rank_weights (self : NLPSaveRestoreConnector) (tmpdir : string) (tp_rank : nat) : string :=
  Py.os_path_join tmpdir
    [("mp_rank_" ++ Py.format_02d tp_rank)%string; model_weights_ckpt self].

(** [NLPSaveRestoreConnector.save_to(self, model, save_path)].  The final
    [else] of the source sits at the depth of the leader test, so it is the
    leader test's alternative. *)
Definition save_to (self : NLPSaveRestoreConnector) (env : Env)
    (model : Model) (save_path : string) : M unit :=
  let a := app_state env in
  if model_parallel_in_use a then
    let dir_name := Py.os_path_dirname save_path in
    if (pipeline_model_parallel_size a =? 1)%nat then
      (if (data_parallel_rank a =? 0)%nat then
         call (save_state_dict_to_disk (state_dict model)
                 (mp_model_weights self dir_name (tensor_model_parallel_rank a)))
       else skip) ;;
      (if dist_is_initialized env then call dist_barrier else skip) ;;
      if (tensor_model_parallel_rank a =? 0)%nat && (data_parallel_rank a =? 0)%nat then
        let tmpdir := fresh_tmpdir env in
        with_TemporaryDirectory tmpdir
          (for_each (Py.range (tensor_model_parallel_size a)) (fun tp_rank =>
             call (os_makedirs (mp_rank_dir tmpdir tp_rank)) ;;
             call (shutil_move (mp_model_weights self dir_name tp_rank)
                               (mp_rank_weights self tmpdir tp_rank))) ;;
           let config_yaml := Py.os_path_join tmpdir [model_config_yaml self] in
           call (to_config_file config_yaml) ;;
           (if has_artifacts model then
              call (handle_artifacts tmpdir) ;;
              call (update_artifact_paths config_yaml)
            else skip) ;;
           call (make_nemo_file_from_folder save_path tmpdir))
      else
        call (logging_info not_implemented_msg)
    else skip
  else
    call (super_save_to save_path).

End Effects.

(** A run in which no collaborator raises. *)
Definition no_failure : action -> bool := fun _ => false.

(** The calls one worker makes during [save_to], in program order. *)
Definition save_to_calls (raises : action -> bool) (self : NLPSaveRestoreConnector)
    (env : Env) (model : Model) (save_path : string) : list action :=
  fst (save_to raises self env model save_path []).

(** Whether [save_to] returned (rather than raised). *)
Definition save_to_returns (raises : action -> bool) (self : NLPSaveRestoreConnector)
    (env : Env) (model : Model) (save_path : string) : bool :=
  match snd (save_to raises self env model save_path []) with
  | Some _ => true
  | None => false
  end.

(** ** The world of workers

    With a single pipeline stage a worker is placed by its tensor-parallel and
    data-parallel rank.  A job fixes what all workers share; the runtime hands
    every worker its own scratch name and every worker holds its own shard. *)

Record Job := {
  job_connector : NLPSaveRestoreConnector;
  job_save_path : string;
  job_model_parallel_size : option nat;
  job_pipeline_model_parallel_size : nat;
  job_tensor_model_parallel_size : nat;
  job_data_parallel_size : nat;
  job_dist_is_initialized : bool;
  job_tmpdir : nat -> nat -> string;
  job_model : nat -> nat -> Model
}.

Definition worker_env (j : Job) (tp dp : nat) : Env := {|
  app_state := {|
    model_parallel_size := job_model_parallel_size j;
    pipeline_model_parallel_size := job_pipeline_model_parallel_size j;
    tensor_model_parallel_size := job_tensor_model_parallel_size j;
    tensor_model_parallel_rank := tp;
    data_parallel_rank := dp |};
  dist_is_initialized := job_dist_is_initialized j;
  fresh_tmpdir := job_tmpdir j tp dp
|}.

(** The calls of the worker at [(tp, dp)] when no collaborator raises. *)
Definition worker_calls (j : Job) (tp dp : nat) : list action :=
  save_to_calls no_failure (job_connector j) (worker_env j tp dp)
    (job_model j tp dp) (job_save_path j).

(** All coordinates of the grid, tensor-parallel rank major. *)
Definition grid (j : Job) : list (nat * nat) :=
  list_prod (seq 0 (job_tensor_model_parallel_size j)) (seq 0 (job_data_parallel_size j)).

Definition world_calls (j : Job) : list (list action) :=
  map (fun c => worker_calls j (fst c) (snd c)) (grid j).

(** The paths a list of calls writes shards to. *)
Definition shard_writes (calls : list action) : list string :=
  flat_map (fun a => match a with
                     | save_state_dict_to_disk _ path => [path]
                     | _ => []
                     end) calls.

Definition is_shard_write (a : action) : bool :=
  match a with save_state_dict_to_disk _ _ => true | _ => false end.

(** The calls that make up the merge on the leader. *)
Definition is_packaging (a : action) : bool :=
  match a with
  | TemporaryDirectory_enter _ | TemporaryDirectory_exit _
  | os_makedirs _ | shutil_move _ _ | to_config_file _
  | handle_artifacts _ | update_artifact_paths _
  | make_nemo_file_from_folder _ _ => true
  | _ => false
  end.

Definition is_barrier (a : action) : bool :=
  match a with dist_barrier => true | _ => false end.

(** The merge as the spec lays it out, for [T] tensor-parallel ranks: a
    fresh scratch directory; every rank-tagged shard moved to
    [scratch/mp_rank_<NN>/<base_weights_filename>]; the config file and the
    artifacts, when the model has any, in the scratch root; one archive at the
    destination; the scratch directory removed. *)
Definition merge_calls (self : NLPSaveRestoreConnector) (model : Model)
    (save_path scratch : string) (T : nat) : list action :=
  [TemporaryDirectory_enter scratch]
  ++ flat_map (fun tp_rank =>
       [os_makedirs (scratch ++ "/" ++ "mp_rank_" ++ Py.format_02d tp_rank)%string;
        shutil_move
          (Py.os_path_join (Py.os_path_dirname save_path)
             [("mp_rank_" ++ Py.format_02d tp_rank ++ "_" ++ model_weights_ckpt self)%string])
          (scratch ++ "/" ++ "mp_rank_" ++ Py.format_02d tp_rank
             ++ "/" ++ model_weights_ckpt self)%string]) (seq 0 T)
  ++ [to_config_file (scratch ++ "/" ++ model_config_yaml self)%string]
  ++ (if has_artifacts model
      then [handle_artifacts scratch;
            update_artifact_paths (scratch ++ "/" ++ model_config_yaml self)%string]
      else [])
  ++ [make_nemo_file_from_folder save_path scratch;
      TemporaryDirectory_exit scratch].

(** A scratch name as the runtime hands it out, and file names that are
    plain names: joining them onto a directory appends them. *)
Definition plain_names (self : NLPSaveRestoreConnector) (scratch : string) : Prop :=
  Py.is_empty scratch = false
  /\ Py.endswith_sep scratch = false
  /\ Py.startswith_sep (model_weights_ckpt self) = false
  /\ Py.startswith_sep (model_config_yaml self) = false.

(** ** Workers running side by side

    A configuration holds, for every worker, the calls it has yet to make.
    Any worker may make its next call on its own, except that
    [torch.distributed.barrier()] returns only when every worker of the
    world has reached it. *)

Definition config := list (list action).

Inductive label : Type :=
| by_worker (rank : nat) (a : action)
| all_pass_barrier.

Inductive step : config -> label -> config -> Prop :=
| step_local : forall before a rest after,
    is_barrier a = false ->
    step (before ++ (a :: rest) :: after)
         (by_worker (List.length before) a)
         (before ++ rest :: after)
| step_barrier : forall c,
    c <> [] ->
    Forall (fun todo => exists rest, todo = dist_barrier :: rest) c ->
    step c all_pass_barrier (map (@tl action) c).

Inductive reachable (c0 : config) : config -> Prop :=
| reach_start : reachable c0 c0
| reach_step : forall c l c', reachable c0 c -> step c l c' -> reachable c0 c'.

(** No remaining program still holds a shard write. *)
Definition writes_finished (c : config) : Prop :=
  Forall (fun todo => existsb is_shard_write todo = false) c.

(** ** The scale controller *)

(** The arithmetic the scaler needs of its floating-point scalars. *)
Class Scalar (F : Type) := {
  fzero : F;
  fone : F;
  fmul : F -> F -> F;
  flt : F -> F -> bool
}.

Definition positive {F} `{Scalar F} (x : F) : Prop := flt fzero x = true.

(** Python exceptions that the modelled methods raise. *)
Inductive exn : Type :=
| AssertionError (msg : string)
| StopIteration
| TypeError.

Inductive outcome (A : Type) : Type :=
| Returned (a : A)
| Raised (e : exn).
Arguments Returned {A} a.
Arguments Raised {A} e.

(** [optimizer_state]: the source reads only its ["found_inf_per_device"]
    entry, a dict from device to a one-element float tensor holding 0.0 or
    1.0; the tensor's value is kept as an integer. *)
Record OptimizerState := {
  found_inf_per_device : list (string * Z)
}.

(** [torch.distributed.all_reduce(t, op=MAX, group=model_parallel_group)] as
    seen by one member: [others] are the values the other members of the
    group bring to the same call. *)
Definition all_reduce_MAX (own : Z) (others : list Z) : Z :=
  fold_left Z.max others own.

(** An optimizer object: its state and its [step] method, which may return
    [None]. *)
Record Optimizer (St Args Ret : Type) := {
  opt_state : St;
  opt_step : St -> Args -> St * option Ret
}.

(** What [_maybe_opt_step] leaves behind: its return value, the optimizer
    afterwards and how often it called [optimizer.step]. *)
Record StepOutcome (St Args Ret : Type) := {
  retval : option Ret;
  optimizer_after : Optimizer St Args Ret;
  step_invocations : nat
}.

(** [sum(v.item() for v in optimizer_state["found_inf_per_device"].values())] *)
Definition sum_found_inf (optimizer_state : OptimizerState) : Z :=
  fold_left Z.add (map snd (found_inf_per_device optimizer_state)) 0%Z.

(** [GradScaler._maybe_opt_step(self, optimizer, optimizer_state, *args)] *)
Definition _maybe_opt_step {St Args Ret} (optimizer : Optimizer St Args Ret)
    (optimizer_state : OptimizerState) (args : Args) (others : list Z)
    : StepOutcome St Args Ret :=
  let found_inf := sum_found_inf optimizer_state in
  let found_inf := all_reduce_MAX found_inf others in
  if (found_inf =? 0)%Z then
    let '(st, r) := opt_step optimizer (opt_state optimizer) args in
    {| retval := r;
       optimizer_after := {| opt_state := st; opt_step := opt_step optimizer |};
       step_invocations := 1 |}
  else
    {| retval := None; optimizer_after := optimizer; step_invocations := 0 |}.

(** The scaler.  [_per_optimizer_states] is keyed by [id(optimizer)] and
    keeps insertion order, as a Python dict does. *)
Record GradScaler (F : Type) := {
  _enabled : bool;
  _scale : F;
  _growth_tracker : Z;
  _growth_factor : F;
  _backoff_factor : F;
  _growth_interval : Z;
  _per_optimizer_states : list (nat * OptimizerState)
}.
Arguments _enabled {F} g.
Arguments _scale {F} g.
Arguments _growth_tracker {F} g.
Arguments _growth_factor {F} g.
Arguments _backoff_factor {F} g.
Arguments _growth_interval {F} g.
Arguments _per_optimizer_states {F} g.

(** [GradScaler.__init__]: every argument is handed to the base class, which
    stores it; the tracker starts at 0 and no inf check is on record. *)
Definition GradScaler_init {F} (init_scale growth_factor backoff_factor : F)
    (growth_interval : Z) (enabled : bool) : GradScaler F := {|
  _enabled := enabled;
  _scale := init_scale;
  _growth_tracker := 0%Z;
  _growth_factor := growth_factor;
  _backoff_factor := backoff_factor;
  _growth_interval := growth_interval;
  _per_optimizer_states := []
|}.

(** The argument [new_scale] of [update] when it is not [None]. *)
Inductive new_scale_arg (F : Type) : Type :=
| py_float (v : F)
| cuda_float_tensor (elems : list F) (requires_grad : bool)
| py_other.
Arguments py_float {F} v.
Arguments cuda_float_tensor {F} elems requires_grad.
Arguments py_other {F}.

(** The inherited [_check_scale_growth_tracker] hands back the scaler's scale
    and tracker tensors.  It asserts that they have been created, which the
    first call of [scale()] does; the state modelled here has them. *)
Definition _check_scale_growth_tracker {F} (self : GradScaler F) (funcname : string)
    : F * Z :=
  (_scale self, _growth_tracker self).

(** Modelled from the spec: [torch._amp_update_scale_], a primitive of the
    tensor library that is not part of the repository.  "If any overflow
    occurred, multiply scale by backoff_factor and reset growth_tracker to 0;
    else increment growth_tracker, and if it reaches growth_interval, multiply
    scale by growth_factor and reset growth_tracker to 0." *)
Definition amp_update_scale {F} `{Scalar F} (scale : F) (growth_tracker : Z)
    (found_inf : Z) (growth_factor backoff_factor : F) (growth_interval : Z)
    : F * Z :=
  if (found_inf =? 0)%Z then
    let successful := (growth_tracker + 1)%Z in
    if (successful =? growth_interval)%Z
    then (fmul scale growth_factor, 0%Z)
    else (scale, successful)
  else (fmul scale backoff_factor, 0%Z).

(** The list [found_infs] that [update] gathers: every flag of every
    optimizer, in dict order. *)
Definition found_infs {F} (self : GradScaler F) : list Z :=
  flat_map (fun state => map snd (found_inf_per_device (snd state)))
           (_per_optimizer_states self).

(** The loop [for i in range(1, len(found_infs))]: reduce flag [i] over the
    group and add it to the running value. *)
Fixpoint reduce_and_add (others : nat -> list Z) (i : nat) (rest : list Z)
    (found_inf_combined : Z) : Z :=
  match rest with
  | [] => found_inf_combined
  | found_inf :: rest' =>
      reduce_and_add others (S i) rest'
        (found_inf_combined + all_reduce_MAX found_inf (others i))%Z
  end.

(** The value of [found_inf_combined] when [update] reaches
    [torch._amp_update_scale_]; [None] when the assertion on
    [len(found_infs)] fails.  [others i] are the values the other group
    members bring to this worker's [i]-th reduction. *)
Definition found_inf_combined (found_infs : list Z) (others : nat -> list Z)
    : option Z :=
  match found_infs with
  | [] => None
  | first :: rest =>
      Some (reduce_and_add others 1 rest (all_reduce_MAX first (others 0%nat)))
  end.

Definition no_inf_checks_msg : string :=
  "No inf checks were recorded prior to update.".

Definition new_scale_reason : string :=
  "new_scale should be a float or a 1-element torch.cuda.FloatTensor with requires_grad=False.".

Definition with_scale {F} (self : GradScaler F) (scale : F) (growth_tracker : Z)
    : GradScaler F := {|
  _enabled := _enabled self;
  _scale := scale;
  _growth_tracker := growth_tracker;
  _growth_factor := _growth_factor self;
  _backoff_factor := _backoff_factor self;
  _growth_interval := _growth_interval self;
  _per_optimizer_states := _per_optimizer_states self
|}.

(** [self._per_optimizer_states = defaultdict(_refresh_per_optimizer_state)] *)
Definition clear_per_optimizer_states {F} (self : GradScaler F) : GradScaler F := {|
  _enabled := _enabled self;
  _scale := _scale self;
  _growth_tracker := _growth_tracker self;
  _growth_factor := _growth_factor self;
  _backoff_factor := _backoff_factor self;
  _growth_interval := _growth_interval self;
  _per_optimizer_states := []
|}.

(** [GradScaler.update(self, new_scale=None)] *)
Definition update {F} `{Scalar F} (self : GradScaler F)
    (new_scale : option (new_scale_arg F)) (others : nat -> list Z)
    : outcome (GradScaler F) :=
  if negb (_enabled self) then Returned self
  else
    let '(scale, growth_tracker) := _check_scale_growth_tracker self "update" in
    match new_scale with
    | Some (py_float v) =>
        Returned (clear_per_optimizer_states (with_scale self v growth_tracker))
    | Some (cuda_float_tensor elems requires_grad) =>
        match elems with
        | [v] =>
            if requires_grad then Raised (AssertionError new_scale_reason)
            else Returned (clear_per_optimizer_states (with_scale self v growth_tracker))
        | _ => Raised (AssertionError new_scale_reason)
        end
    | Some py_other => Raised (AssertionError new_scale_reason)
    | None =>
        match found_inf_combined (found_infs self) others with
        | None => Raised (AssertionError no_inf_checks_msg)
        | Some combined =>
            let '(scale', growth_tracker') :=
              amp_update_scale scale growth_tracker combined
                (_growth_factor self) (_backoff_factor self) (_growth_interval self) in
            Returned (clear_per_optimizer_states (with_scale self scale' growth_tracker'))
        end
    end.

(** *** A model-parallel group

    A group is given by the flag lists of its members, each in the order in
    which that member reduces them.  Member [r] sees, at its [i]-th
    reduction, the [i]-th flag of every other member. *)

Definition group := list (list Z).

Definition other_members (g : group) (r : nat) : group :=
  firstn r g ++ skipn (S r) g.

Definition others_of (g : group) (r : nat) (i : nat) : list Z :=
  map (fun flags => nth i flags 0%Z) (other_members g r).

(** The value member [r] of the group feeds into the scale update. *)
Definition member_combined (g : group) (r : nat) : option Z :=
  found_inf_combined (nth r g []) (others_of g r).

(** The spec's wording of the same decision: "combine them into one flag via
    logical OR", then "reduce this combined flag by max across the
    model-parallel process group". *)
Definition spec_local_or (flags : list Z) : Z :=
  if existsb (fun f => negb (f =? 0)%Z) flags then 1%Z else 0%Z.

Definition spec_combined_flag (g : group) (r : nat) : Z :=
  all_reduce_MAX (spec_local_or (nth r g [])) (map spec_local_or (other_members g r)).

(** Some flag of some member is set. *)
Definition any_flag_set (g : group) : Prop :=
  exists flags f, In flags g /\ In f flags /\ f <> 0%Z.

(** The [i]-th flags of all members, and their maximum. *)
Definition column (g : group) (i : nat) : list Z :=
  map (fun flags => nth i flags 0%Z) g.

Definition column_max (g : group) (i : nat) : Z :=
  match column g i with
  | [] => 0%Z
  | x :: rest => all_reduce_MAX x rest
  end.

Definition sumZ (l : list Z) : Z := fold_right Z.add 0%Z l.

(** The flags of one member after each has been reduced over the group,
    starting at reduction number [i]. *)
Fixpoint reduced_flags (others : nat -> list Z) (i : nat) (flags : list Z) : list Z :=
  match flags with
  | [] => []
  | f :: rest => all_reduce_MAX f (others i) :: reduced_flags others (S i) rest
  end.

(** *** Sequences of scaler operations *)

(** [self._per_optimizer_states[optimizer_id] = optimizer_state] *)
Fixpoint set_optimizer_state (states : list (nat * OptimizerState))
    (optimizer_id : nat) (optimizer_state : OptimizerState)
    : list (nat * OptimizerState) :=
  match states with
  | [] => [(optimizer_id, optimizer_state)]
  | (k, s) :: rest =>
      if (k =? optimizer_id)%nat then (k, optimizer_state) :: rest
      else (k, s) :: set_optimizer_state rest optimizer_id optimizer_state
  end.

(** The two operations of the controller.  [_maybe_opt_step] is handed the
    scaler's own entry for the optimizer, holding the flags of this
    iteration's inf check; it does not touch the scale. *)
Inductive operation (F : Type) : Type :=
| do_maybe_opt_step (optimizer_id : nat) (optimizer_state : OptimizerState)
| do_update (new_scale : option (new_scale_arg F)) (others : nat -> list Z).
Arguments do_maybe_opt_step {F} optimizer_id optimizer_state.
Arguments do_update {F} new_scale others.

Definition apply_operation {F} `{Scalar F} (self : GradScaler F) (op : operation F)
    : GradScaler F :=
  match op with
  | do_maybe_opt_step optimizer_id optimizer_state =>
      {| _enabled := _enabled self;
         _scale := _scale self;
         _growth_tracker := _growth_tracker self;
         _growth_factor := _growth_factor self;
         _backoff_factor := _backoff_factor self;
         _growth_interval := _growth_interval self;
         _per_optimizer_states :=
           set_optimizer_state (_per_optimizer_states self) optimizer_id optimizer_state |}
  | do_update new_scale others =>
      match update self new_scale others with
      | Returned self' => self'
      | Raised _ => self
      end
  end.

(** The scaler after a sequence of operations; a call that raises leaves the
    scaler as it was. *)
Definition run {F} `{Scalar F} (self : GradScaler F) (ops : list (operation F))
    : GradScaler F :=
  fold_left apply_operation ops self.

(** Exact rational arithmetic as scalars. *)
#[export] Instance Q_Scalar : Scalar QArith_base.Q := {|
  fzero := QArith_base.Qmake 0 1;
  fone := QArith_base.Qmake 1 1;
  fmul := QArith_base.Qmult;
  flt := fun a b => negb (QArith_base.Qle_bool b a)
|}.

(** *** Floating-point scalars

    IEEE 754 arithmetic with [prec] bits of precision and exponents below
    [emax], products rounded to nearest even: binary32, the format of a
    [torch.float32] tensor, is [prec = 24] and [emax = 128]; binary64, the
    format of a Python [float], is [prec = 53] and [emax = 1024]. *)
Definition IEEE_Scalar (prec emax : Z) : Scalar SpecFloat.spec_float := {|
  fzero := SpecFloat.S754_zero false;
  fone := SpecFloat.S754_finite false (Z.to_pos (2 ^ (prec - 1))) (1 - prec);
  fmul := SpecFloat.SFmul prec emax;
  flt := SpecFloat.SFltb
|}.

Definition binary32_Scalar : Scalar SpecFloat.spec_float := IEEE_Scalar 24 128.

Definition binary64_Scalar : Scalar SpecFloat.spec_float := IEEE_Scalar 53 1024.

(** [0.0 <= x]: a zero, a positive number or plus infinity; neither a
    negative number nor a NaN. *)
Definition zero_or_positive (x : SpecFloat.spec_float) : Prop :=
  SpecFloat.SFleb (SpecFloat.S754_zero false) x = true.

(** A zero or a finite number: neither an infinity nor a NaN. *)
Definition is_finite (x : SpecFloat.spec_float) : bool :=
  match x with
  | SpecFloat.S754_zero _ | SpecFloat.S754_finite _ _ _ => true
  | _ => false
  end.

(** The value that a manual [new_scale] leaves in the scale tensor is zero
    or positive. *)
Definition manual_scale_zero_or_positive (op : operation SpecFloat.spec_float) : Prop :=
  match op with
  | do_update (Some (py_float v)) _ => zero_or_positive v
  | do_update (Some (cuda_float_tensor elems _)) _ => Forall zero_or_positive elems
  | _ => True
  end.

(** What every operation of the scaler keeps: a scale that is zero or
    positive, and two factors that are positive and finite. *)
Definition sign_kept (self : GradScaler SpecFloat.spec_float) : Prop :=
  zero_or_positive (_scale self)
  /\ (SpecFloat.SFltb (SpecFloat.S754_zero false) (_growth_factor self) = true
      /\ is_finite (_growth_factor self) = true)
  /\ (SpecFloat.SFltb (SpecFloat.S754_zero false) (_backoff_factor self) = true
      /\ is_finite (_backoff_factor self) = true).

(** The scaler with the defaults of the source, [init_scale=2.0 ** 16],
    [growth_factor=2.0], [backoff_factor=0.5] and [growth_interval=2000],
    in binary64 and in binary32. *)
Definition binary64_scaler : GradScaler SpecFloat.spec_float :=
  GradScaler_init
    (SpecFloat.S754_finite false 4503599627370496 (-36))
    (SpecFloat.S754_finite false 4503599627370496 (-51))
    (SpecFloat.S754_finite false 4503599627370496 (-53))
    2000 true.

Definition binary32_scaler : GradScaler SpecFloat.spec_float :=
  GradScaler_init
    (SpecFloat.S754_finite false 8388608 (-7))
    (SpecFloat.S754_finite false 8388608 (-22))
    (SpecFloat.S754_finite false 8388608 (-24))
    2000 true.

(** [n] iterations in each of which an overflow is found. *)
Definition overflowing_iterations (n : nat) : list (operation SpecFloat.spec_float) :=
  List.concat (repeat [do_maybe_opt_step 1 {| found_inf_per_device := [("cuda:0", 1%Z)] |};
                  do_update None (fun _ => [])] n).

(** ** The global-batch fetcher *)

(** The process-wide microbatch calculator that [get_num_microbatches()]
    reads. *)
Record Globals := {
  num_microbatches_calculator : nat
}.

Definition get_num_microbatches (g : Globals) : nat :=
  num_microbatches_calculator g.

(** [dataloader_iter] is [None] until the inherited [__iter__] stores
    [iter(dataloader)]; an iterator is the list of items it has yet to
    yield. *)
Record GlobalBatchDataFetcher (Item : Type) := {
  prefetch_batches : nat;
  store_on_device : bool;
  num_micro_batches : nat;
  dataloader_iter : option (list Item);
  fetched : nat
}.
Arguments prefetch_batches {Item} g.
Arguments store_on_device {Item} g.
Arguments num_micro_batches {Item} g.
Arguments dataloader_iter {Item} g.
Arguments fetched {Item} g.

(** [GlobalBatchDataFetcher.__init__(self, prefetch_batches, store_on_device)] *)
Definition GlobalBatchDataFetcher_init (Item : Type) (globals : Globals)
    (prefetch_batches : nat) (store_on_device : bool) : GlobalBatchDataFetcher Item := {|
  prefetch_batches := prefetch_batches;
  store_on_device := store_on_device;
  num_micro_batches := get_num_microbatches globals;
  dataloader_iter := None;
  fetched := 0
|}.

(** The inherited [__iter__]: [self.dataloader_iter = iter(self.dataloader)]. *)
Definition with_dataloader_iter {Item} (self : GlobalBatchDataFetcher Item)
    (items : list Item) : GlobalBatchDataFetcher Item := {|
  prefetch_batches := prefetch_batches self;
  store_on_device := store_on_device self;
  num_micro_batches := num_micro_batches self;
  dataloader_iter := Some items;
  fetched := fetched self
|}.

(** [next(it)] *)
Definition next {Item} (it : option (list Item)) : option (list Item) * outcome Item :=
  match it with
  | None => (None, Raised TypeError)
  | Some [] => (Some [], Raised StopIteration)
  | Some (x :: rest) => (Some rest, Returned x)
  end.

(** [[next(it) for _ in range(n)]]: an exception leaves the list unfinished,
    the items drawn so far are gone from the iterator. *)
Fixpoint draw {Item} (n : nat) (it : option (list Item))
    : option (list Item) * outcome (list Item) :=
  match n with
  | O => (it, Returned [])
  | S k =>
      match next it with
      | (it', Returned x) =>
          match draw k it' with
          | (it'', Returned xs) => (it'', Returned (x :: xs))
          | (it'', Raised e) => (it'', Raised e)
          end
      | (it', Raised e) => (it', Raised e)
      end
  end.

(** [GlobalBatchDataFetcher._fetch_next_batch(self)].  The profiler and
    fetching contexts and the [on_fetch_start] hook do not touch the fields
    kept here.  The source leaves [batch] in a local; it is returned here so
    that it can be observed. *)
Definition _fetch_next_batch {Item} (globals : Globals) (self : GlobalBatchDataFetcher Item)
    : GlobalBatchDataFetcher Item * outcome (list Item) :=
  match draw (num_micro_batches self) (dataloader_iter self) with
  | (it, Returned batch) =>
      ({| prefetch_batches := prefetch_batches self;
          store_on_device := store_on_device self;
          num_micro_batches := num_micro_batches self;
          dataloader_iter := it;
          fetched := fetched self + 1 |},
       Returned batch)
  | (it, Raised e) =>
      ({| prefetch_batches := prefetch_batches self;
          store_on_device := store_on_device self;
          num_micro_batches := num_micro_batches self;
          dataloader_iter := it;
          fetched := fetched self |},
       Raised e)
  end.

(** The two phases of a worker around the barrier: before it, the remaining
    program still has the barrier ahead and nothing of the merge in front of
    it; after it, neither a shard write nor a barrier is left. *)
Definition before_barrier (todo : list action) : Prop :=
  exists pre post,
    todo = pre ++ dist_barrier :: post
    /\ Forall (fun a => is_packaging a = false /\ is_barrier a = false) pre
    /\ existsb is_shard_write post = false
    /\ existsb is_barrier post = false.

Definition after_barrier (todo : list action) : Prop :=
  existsb is_shard_write todo = false /\ existsb is_barrier todo = false.

Definition in_phase (c : config) : Prop :=
  Forall before_barrier c \/ Forall after_barrier c.

(** Joining a relative name onto a directory puts a prefix in front of it
    that depends on the directory alone. *)
Definition join_prefix (dir : string) : string :=
  if Py.is_empty dir || Py.endswith_sep dir then dir else (dir ++ "/")%string.

(** The merge as the source issues it, with the paths as it builds them. *)
Definition source_merge_calls (self : NLPSaveRestoreConnector) (model : Model)
    (save_path tmpdir : string) (T : nat) : list action :=
  [TemporaryDirectory_enter tmpdir]
  ++ flat_map (fun tp_rank =>
       [os_makedirs (mp_rank_dir tmpdir tp_rank);
        shutil_move (mp_model_weights self (Py.os_path_dirname save_path) tp_rank)
                    (mp_rank_weights self tmpdir tp_rank)]) (seq 0 T)
  ++ [to_config_file (Py.os_path_join tmpdir [model_config_yaml self])]
  ++ (if has_artifacts model
      then [handle_artifacts tmpdir;
            update_artifact_paths (Py.os_path_join tmpdir [model_config_yaml self])]
      else [])
  ++ [make_nemo_file_from_folder save_path tmpdir;
      TemporaryDirectory_exit tmpdir].

(** ** A small job to try things on: two tensor-parallel ranks, two
    data-parallel ranks *)

Definition example_connector : NLPSaveRestoreConnector := {|
  model_weights_ckpt := "model_weights.ckpt";
  model_config_yaml := "model_config.yaml"
|}.

Definition example_job (pipeline_size : nat) (initialized : bool) : Job := {|
  job_connector := example_connector;
  job_save_path := "/results/megatron_gpt.nemo";
  job_model_parallel_size := Some (2 * pipeline_size);
  job_pipeline_model_parallel_size := pipeline_size;
  job_tensor_model_parallel_size := 2;
  job_data_parallel_size := 2;
  job_dist_is_initialized := initialized;
  job_tmpdir := fun tp dp => ("/tmp/tmp" ++ Py.format_02d tp ++ Py.format_02d dp)%string;
  job_model := fun tp dp =>
    {| state_dict := ("weights of tensor rank " ++ Py.format_02d tp)%string;
       artifacts := Some (Some ["tokenizer.model"]) |}
|}.

(** The calls of its four workers with one pipeline stage and the runtime
    initialized, in grid order. *)
Definition example_leader : list action :=
  Eval vm_compute in worker_calls (example_job 1 true) 0 0.
Definition example_replica_of_leader : list action :=
  Eval vm_compute in worker_calls (example_job 1 true) 0 1.
Definition example_writer : list action :=
  Eval vm_compute in worker_calls (example_job 1 true) 1 0.
Definition example_replica_of_writer : list action :=
  Eval vm_compute in worker_calls (example_job 1 true) 1 1.

(** The same world once both shards are written and the barrier is passed. *)
Definition example_past_barrier : config :=
  [tl (tl example_leader); tl example_replica_of_leader;
   tl (tl example_writer); tl example_replica_of_writer].

(** A scaler with the defaults of the source ([init_scale=2.0 ** 16],
    [growth_factor=2.0], [backoff_factor=0.5], [growth_interval=2000]) over
    the rationals, and the same scaler once an optimizer's inf check has
    found an overflow on one device. *)
Definition example_scaler : GradScaler QArith_base.Q :=
  GradScaler_init (QArith_base.Qmake 65536 1) (QArith_base.Qmake 2 1)
    (QArith_base.Qmake 1 2) 2000 true.

Definition example_overflow : OptimizerState :=
  {| found_inf_per_device := [("cuda:0", 1%Z)] |}.

Definition example_scaler_overflowed : GradScaler QArith_base.Q :=
  apply_operation example_scaler (do_maybe_opt_step 1 example_overflow).

(** Group members that saw no overflow: one other member, flag 0. *)
Definition example_quiet_others : nat -> list Z := fun _ => [0%Z].

(** An optimizer whose inf check found no overflow. *)
Definition example_clean : OptimizerState :=
  {| found_inf_per_device := [("cuda:0", 0%Z)] |}.

(** A training run in floating point: an overflow, an update, a clean
    step, an update, a manual scale of 0.0, then another overflow and
    update. *)
Definition example_float_run : list (operation SpecFloat.spec_float) :=
  [do_maybe_opt_step 1 example_overflow;
   do_update None example_quiet_others;
   do_maybe_opt_step 1 example_clean;
   do_update None example_quiet_others;
   do_update (Some (py_float (SpecFloat.S754_zero false))) example_quiet_others;
   do_maybe_opt_step 1 example_overflow;
   do_update None example_quiet_others].

(** A fetcher built while the calculator said 2 microbatches, over a
    loader of five items. *)
Definition example_fetcher : GlobalBatchDataFetcher nat :=
  with_dataloader_iter
    (GlobalBatchDataFetcher_init nat {| num_microbatches_calculator := 2 |} 0 false)
    [10; 11; 12; 13; 14].

(** The same fetcher with a single item left. *)
Definition example_fetcher_at_end : GlobalBatchDataFetcher nat :=
  with_dataloader_iter
    (GlobalBatchDataFetcher_init nat {| num_microbatches_calculator := 2 |} 0 false)
    [14].

(** ** Runs in which collaborators raise *)

(** Of a list of calls to be made one after the other, those that are made:
    all up to and including the first that raises. *)
Fixpoint cut_at_raise (raises : action -> bool) (calls : list action) : list action :=
  match calls with
  | [] => []
  | a :: rest => a :: (if raises a then [] else cut_at_raise raises rest)
  end.

Definition none_raises (raises : action -> bool) (calls : list action) : bool :=
  forallb (fun a => negb (raises a)) calls.

(** What [save_to] calls before the leader test: the shard write of a
    data-parallel rank 0 and the barrier of an initialized runtime. *)
Definition calls_before_merge (self : NLPSaveRestoreConnector) (env : Env)
    (model : Model) (save_path : string) : list action :=
  (if (data_parallel_rank (app_state env) =? 0)%nat
   then [save_state_dict_to_disk (state_dict model)
           (mp_model_weights self (Py.os_path_dirname save_path)
              (tensor_model_parallel_rank (app_state env)))]
   else [])
  ++ (if dist_is_initialized env then [dist_barrier] else []).

(** What the leader calls inside the scratch directory. *)
Definition calls_in_scratch (self : NLPSaveRestoreConnector) (model : Model)
    (save_path tmpdir : string) (T : nat) : list action :=
  flat_map (fun tp_rank =>
     [os_makedirs (mp_rank_dir tmpdir tp_rank);
      shutil_move (mp_model_weights self (Py.os_path_dirname save_path) tp_rank)
                  (mp_rank_weights self tmpdir tp_rank)]) (seq 0 T)
  ++ [to_config_file (Py.os_path_join tmpdir [model_config_yaml self])]
  ++ (if has_artifacts model
      then [handle_artifacts tmpdir;
            update_artifact_paths (Py.os_path_join tmpdir [model_config_yaml self])]
      else [])
  ++ [make_nemo_file_from_folder save_path tmpdir].

(** The leader test of [save_to]. *)
Definition is_leader (a : AppState) : bool :=
  (tensor_model_parallel_rank a =? 0)%nat && (data_parallel_rank a =? 0)%nat.

(** The outcome of making a list of calls one after the other. *)
Definition run_calls (raises : action -> bool) (calls : list action)
    : list action * option unit :=
  (cut_at_raise raises calls, if none_raises raises calls then Some tt else None).

(** The outcome on the leader: the calls before the merge, then the scratch
    directory entered, the calls inside it, and the scratch directory
    removed whether or not they went through. *)
Definition run_leader (raises : action -> bool) (before : list action)
    (tmpdir : string) (inside : list action) : list action * option unit :=
  if none_raises raises before then
    if raises (TemporaryDirectory_enter tmpdir)
    then (before ++ [TemporaryDirectory_enter tmpdir], None)
    else (before ++ [TemporaryDirectory_enter tmpdir]
            ++ cut_at_raise raises inside ++ [TemporaryDirectory_exit tmpdir],
          if raises (TemporaryDirectory_exit tmpdir) then None
          else if none_raises raises inside then Some tt else None)
  else (cut_at_raise raises before, None).

(** The calls inside the scratch directory that come before the archive is
    made. *)
Definition calls_before_archive (self : NLPSaveRestoreConnector) (model : Model)
    (save_path tmpdir : string) (T : nat) : list action :=
  flat_map (fun tp_rank =>
     [os_makedirs (mp_rank_dir tmpdir tp_rank);
      shutil_move (mp_model_weights self (Py.os_path_dirname save_path) tp_rank)
                  (mp_rank_weights self tmpdir tp_rank)]) (seq 0 T)
  ++ [to_config_file (Py.os_path_join tmpdir [model_config_yaml self])]
  ++ (if has_artifacts model
      then [handle_artifacts tmpdir;
            update_artifact_paths (Py.os_path_join tmpdir [model_config_yaml self])]
      else []).

Definition is_scratch_bracket (a : action) : bool :=
  match a with
  | TemporaryDirectory_enter _ | TemporaryDirectory_exit _ => true
  | _ => false
  end.

Definition is_archive (a : action) : bool :=
  match a with make_nemo_file_from_folder _ _ => true | _ => false end.

(** Every move of the failing run raises: the shards are not where the
    leader looks for them. *)
Definition shards_missing : action -> bool :=
  fun a => match a with shutil_move _ _ => true | _ => false end.

(** The files a list of calls moves, and where it moves them to. *)
Definition move_sources (calls : list action) : list string :=
  flat_map (fun a => match a with shutil_move src _ => [src] | _ => [] end) calls.

Definition move_targets (calls : list action) : list string :=
  flat_map (fun a => match a with shutil_move _ dst => [dst] | _ => [] end) calls.

(** ** [NLPDDPPlugin] *)

(** [NLPDDPPlugin.should_rank_save_checkpoint]; [inherited] is the answer of
    the base class. *)
Definition should_rank_save_checkpoint (a : AppState) (inherited : bool) : bool :=
  if model_parallel_in_use a then (data_parallel_rank a =? 0)%nat else inherited.

(** The calls still to be made in a configuration. *)
Definition remaining (c : config) : nat :=
  list_sum (map (@List.length action) c).

Definition all_done (c : config) : Prop :=
  Forall (fun todo => todo = []) c.

(** ** A group of scalers *)

(** An optimizer whose inf check has not run. *)
Definition no_inf_check : OptimizerState := {| found_inf_per_device := [] |}.

(** The flags of one optimizer, device by device. *)
Definition flags_of_state (st : OptimizerState) : list Z :=
  map snd (found_inf_per_device st).

(** What the other members of a group bring to the reduction in
    [_maybe_opt_step]: each its own sum, for the same optimizer. *)
Definition peers_sums (states : list OptimizerState) (r : nat) : list Z :=
  map sum_found_inf (firstn r states ++ skipn (S r) states).

(** The flags a member's [update] gathers from its per-optimizer states. *)
Definition flags_of_member (states : list OptimizerState) : list Z :=
  flat_map flags_of_state states.

(** The states that the members of a group hold for their [k]-th optimizer. *)
Definition states_of_optimizer (members : list (list OptimizerState)) (k : nat)
    : list OptimizerState :=
  map (fun states => nth k states no_inf_check) members.

(** A group of two members with two optimizers of one device each; the
    second member's second optimizer has found an overflow. *)
Definition example_members : list (list OptimizerState) :=
  [[example_clean; example_clean]; [example_clean; example_overflow]].

(** The first member's scaler, with its two optimizers on record. *)
Definition example_member_scaler : GradScaler QArith_base.Q :=
  run example_scaler
    [do_maybe_opt_step 1 example_clean; do_maybe_opt_step 2 example_clean].

(** An optimizer that counts its steps and returns the count so far. *)
Definition example_optimizer : Optimizer nat unit nat :=
  {| opt_state := 0; opt_step := fun st (_ : unit) => (S st, Some st) |}.

(** The second member's scaler, with its two optimizers on record. *)
Definition example_peer_scaler : GradScaler QArith_base.Q :=
  run example_scaler
    [do_maybe_opt_step 1 example_clean; do_maybe_opt_step 2 example_overflow].

(** "At least one found_inf flag of any optimizer on any worker in the
    model-parallel group is nonzero." *)
Definition any_overflow (members : list (list OptimizerState)) : Prop :=
  exists states st f,
    In states members /\ In st states /\ In f (flags_of_state st) /\ f <> 0%Z.

(** The spec's wording of the value that [_maybe_opt_step] tests: the
    per-device flags of a worker summed, and of these sums the maximum over
    the group. *)
Definition device_sum (st : OptimizerState) : Z := sumZ (flags_of_state st).

Definition is_group_maximum (m : Z) (values : list Z) : Prop :=
  In m values /\ Forall (fun v => (v <= m)%Z) values.

(** ** Fetching a whole epoch *)

(** Up to [k] calls of [_fetch_next_batch] one after the other, as the loop
    that drives the fetcher makes them: the batches are collected and the
    first call that raises ends the loop. *)
Fixpoint fetch_many {Item} (globals : Globals) (k : nat)
    (self : GlobalBatchDataFetcher Item)
    : GlobalBatchDataFetcher Item * list (list Item) * option exn :=
  match k with
  | O => (self, [], None)
  | S k' =>
      match _fetch_next_batch globals self with
      | (self', Returned batch) =>
          let '(self'', batches, e) := fetch_many globals k' self' in
          (self'', batch :: batches, e)
      | (self', Raised e) => (self', [], Some e)
      end
  end.

(** The number of flag positions, among the first [n], at which some member
    of a group has its flag set. *)
Definition positions_set (g : group) (n : nat) : nat :=
  List.length (filter (fun i => existsb (fun f => negb (f =? 0)%Z) (column g i))
                      (seq 0 n)).

(** ** [NLPDataConnector] *)

Inductive data_fetcher : Type :=
| GlobalBatchDataFetcher_
| DataLoaderIterDataFetcher_
| InterBatchParallelDataFetcher_.

(** What [_select_data_fetcher] reads of the trainer:
    [trainer.sanity_checking], [trainer.training],
    [is_param_in_hook_signature(training_step_fx, "dataloader_iter", explicit=True)]
    and [trainer.training_type_plugin.on_gpu]. *)
Record TrainerView := {
  sanity_checking : bool;
  training : bool;
  training_step_takes_dataloader_iter : bool;
  on_gpu : bool
}.

(** The outcome of [_select_data_fetcher]: the fetcher it returns, and
    whether it called [rank_zero_warn] on the way, or the exception. *)
Inductive selection : Type :=
| Selected (warned : bool) (fetcher : data_fetcher)
| MisconfigurationException (msg : string).

(** [os.getenv(name, default)] over an environment [environ]. *)
Definition os_getenv (environ : string -> option string) (name default : string) : string :=
  match environ name with
  | Some value => value
  | None => default
  end.

(** [NLPDataConnector._select_data_fetcher(self)] *)
Definition _select_data_fetcher (trainer : TrainerView)
    (environ : string -> option string) : selection :=
  if sanity_checking trainer then Selected false GlobalBatchDataFetcher_
  else if training trainer && training_step_takes_dataloader_iter trainer then
    Selected true DataLoaderIterDataFetcher_
  else if training trainer
          && String.eqb (os_getenv environ "PL_INTER_BATCH_PARALLELISM" "0") "1" then
    if negb (on_gpu trainer)
    then MisconfigurationException
           "Inter batch parallelism is available only when using Nvidia GPUs."
    else Selected false InterBatchParallelDataFetcher_
  else Selected false GlobalBatchDataFetcher_.

(** ** The pretraining script: the timer callbacks *)

Section Timers.

(** The callbacks of the trainer, the test [isinstance(callback, Timer)] and
    the constructor [StatelessTimer(max_time)]; the classes themselves are
    not part of the repository's sources. *)
Variable Callback : Type.
Variable MaxTime : Type.
Variable isinstance_Timer : Callback -> bool.
Variable StatelessTimer : MaxTime -> Callback.

(** [callbacks[idx] = x], for [idx] within the list. *)
Fixpoint list_assign (callbacks : list Callback) (idx : nat) (x : Callback)
    : list Callback :=
  match callbacks, idx with
  | [], _ => []
  | _ :: rest, O => x :: rest
  | c :: rest, S i => c :: list_assign rest i x
  end.

(** One round of the loop: the callback now at [idx] is looked at and, when
    it is a [Timer], overwritten in place. *)
Definition override_timer_at (max_time : MaxTime) (callbacks : list Callback)
    (idx : nat) : list Callback :=
  match nth_error callbacks idx with
  | Some callback =>
      if isinstance_Timer callback
      then list_assign callbacks idx (StatelessTimer max_time)
      else callbacks
  | None => callbacks
  end.

(** [for idx, callback in enumerate(trainer.callbacks): ...] of [main]. *)
Definition override_timers (max_time : MaxTime) (callbacks : list Callback)
    : list Callback :=
  fold_left (override_timer_at max_time) (seq 0 (List.length callbacks)) callbacks.

End Timers.


(** * Properties *)

(** ** Strings and paths *)

Lemma append_length (s t : string) :
  String.length (s ++ t) = String.length s + String.length t.
Proof. induction s as [|c s IH]; simpl; [reflexivity | now rewrite IH]. Qed.

Lemma append_inv_head (s t u : string) : (s ++ t = s ++ u)%string -> t = u.
Proof.
  induction s as [|c s IH]; simpl; intros E; [exact E|].
  injection E as E. now apply IH.
Qed.

Lemma append_inv_tail (s1 s2 t : string) : (s1 ++ t = s2 ++ t)%string -> s1 = s2.
Proof.
  revert s2. induction s1 as [|c s1 IH]; intros [|d s2] E; simpl in E.
  - reflexivity.
  - apply (f_equal String.length) in E. simpl in E. rewrite append_length in E. lia.
  - apply (f_equal String.length) in E. simpl in E. rewrite append_length in E. lia.
  - injection E as -> E. f_equal. now apply IH.
Qed.

Lemma append_assoc (s t u : string) : ((s ++ t) ++ u = s ++ t ++ u)%string.
Proof. induction s as [|c s IH]; simpl; [reflexivity | now rewrite IH]. Qed.

Lemma to_uint_not_nil (n : nat) : Nat.to_uint n <> Decimal.Nil.
Proof.
  intros E. pose proof (DecimalNat.Unsigned.of_to n) as R.
  rewrite E in R. simpl in R. subst n. discriminate E.
Qed.

Lemma string_of_to_uint (n : nat) :
  NilZero.string_of_uint (Nat.to_uint n) = NilEmpty.string_of_uint (Nat.to_uint n).
Proof.
  pose proof (to_uint_not_nil n) as N.
  destruct (Nat.to_uint n); [congruence | reflexivity ..].
Qed.

Lemma parse_format_02d (n : nat) : Py.parse_decimal (Py.format_02d n) = Some n.
Proof.
  unfold Py.parse_decimal, Py.format_02d. rewrite string_of_to_uint.
  destruct (String.length _ <? 2)%nat.
  - change (NilEmpty.uint_of_string ("0" ++ ?s))
      with (uint_of_char "0" (NilEmpty.uint_of_string s)).
    rewrite NilEmpty.usu. simpl. f_equal.
    change (Nat.of_uint (Decimal.D0 ?d)) with (Nat.of_uint d).
    apply DecimalNat.Unsigned.of_to.
  - rewrite NilEmpty.usu. simpl. f_equal. apply DecimalNat.Unsigned.of_to.
Qed.

Lemma format_02d_inj (m n : nat) : Py.format_02d m = Py.format_02d n -> m = n.
Proof.
  intros E. apply (f_equal Py.parse_decimal) in E.
  rewrite !parse_format_02d in E. now injection E.
Qed.

Lemma join_step_relative (dir name : string) :
  Py.startswith_sep name = false ->
  Py.join_step dir name = (join_prefix dir ++ name)%string.
Proof.
  intros R. unfold Py.join_step, join_prefix. rewrite R.
  destruct (Py.is_empty dir || Py.endswith_sep dir); [reflexivity|].
  now rewrite append_assoc.
Qed.

Lemma mp_model_weights_prefix self dir tp :
  mp_model_weights self dir tp
  = (join_prefix dir ++ "mp_rank_" ++ Py.format_02d tp ++ "_" ++ model_weights_ckpt self)%string.
Proof. unfold mp_model_weights. simpl. now rewrite join_step_relative. Qed.

Lemma mp_model_weights_inj self dir tp tp' :
  mp_model_weights self dir tp = mp_model_weights self dir tp' -> tp = tp'.
Proof.
  rewrite !mp_model_weights_prefix. intros E.
  apply append_inv_head in E. apply (append_inv_head "mp_rank_") in E.
  rewrite <- !append_assoc in E. apply append_inv_tail in E.
  apply append_inv_tail in E. now apply format_02d_inj.
Qed.

(** ** Running the effect monad when nothing raises *)

Lemma for_each_calls (A : Type) (xs : list A) (body : A -> M unit)
    (calls : A -> list action) :
  (forall x log, body x log = (log ++ calls x, Some tt)) ->
  forall log, for_each xs body log = (log ++ flat_map calls xs, Some tt).
Proof.
  intros Hbody. induction xs as [|x xs IH]; intros log; simpl.
  - unfold skip, ret. now rewrite app_nil_r.
  - unfold bind. rewrite Hbody, IH. now rewrite app_assoc.
Qed.

Lemma merge_loop_calls self dir_name tmpdir T log :
  for_each (Py.range T) (fun tp_rank =>
      bind (call no_failure (os_makedirs (mp_rank_dir tmpdir tp_rank))) (fun _ =>
        call no_failure (shutil_move (mp_model_weights self dir_name tp_rank)
                                     (mp_rank_weights self tmpdir tp_rank)))) log
  = (log ++ flat_map (fun tp_rank =>
              [os_makedirs (mp_rank_dir tmpdir tp_rank);
               shutil_move (mp_model_weights self dir_name tp_rank)
                           (mp_rank_weights self tmpdir tp_rank)]) (seq 0 T),
     Some tt).
Proof.
  apply for_each_calls. intros x l. unfold bind, call, no_failure. simpl.
  now rewrite <- app_assoc.
Qed.

(** What one worker calls, case by case, when no collaborator raises. *)
Lemma save_to_calls_no_failure self env model save_path :
  save_to_calls no_failure self env model save_path =
  let a := app_state env in
  if model_parallel_in_use a then
    if (pipeline_model_parallel_size a =? 1)%nat then
      (if (data_parallel_rank a =? 0)%nat
       then [save_state_dict_to_disk (state_dict model)
               (mp_model_weights self (Py.os_path_dirname save_path)
                  (tensor_model_parallel_rank a))]
       else [])
      ++ (if dist_is_initialized env then [dist_barrier] else [])
      ++ (if (tensor_model_parallel_rank a =? 0)%nat && (data_parallel_rank a =? 0)%nat
          then source_merge_calls self model save_path (fresh_tmpdir env)
                 (tensor_model_parallel_size a)
          else [logging_info not_implemented_msg])
    else []
  else [super_save_to save_path].
Proof.
  unfold save_to_calls, save_to. cbv zeta.
  destruct (model_parallel_in_use (app_state env)); [|reflexivity].
  destruct (pipeline_model_parallel_size (app_state env) =? 1)%nat; [|reflexivity].
  unfold bind at 1.
  set (w := if (data_parallel_rank (app_state env) =? 0)%nat then _ else skip).
  assert (Hw : w [] =
    ((if (data_parallel_rank (app_state env) =? 0)%nat
      then [save_state_dict_to_disk (state_dict model)
              (mp_model_weights self (Py.os_path_dirname save_path)
                 (tensor_model_parallel_rank (app_state env)))]
      else []), Some tt)).
  { subst w. destruct (data_parallel_rank (app_state env) =? 0)%nat; reflexivity. }
  rewrite Hw. clear Hw w.
  set (l1 := if (data_parallel_rank (app_state env) =? 0)%nat then _ else []).
  unfold bind at 1.
  set (b := if dist_is_initialized env then _ else skip).
  assert (Hb : b l1 = (l1 ++ (if dist_is_initialized env then [dist_barrier] else []), Some tt)).
  { subst b. destruct (dist_is_initialized env); unfold call, skip, ret, no_failure; simpl;
      [reflexivity | now rewrite app_nil_r]. }
  rewrite Hb. clear Hb b.
  set (l2 := l1 ++ _).
  destruct ((tensor_model_parallel_rank (app_state env) =? 0)%nat
            && (data_parallel_rank (app_state env) =? 0)%nat).
  - unfold with_TemporaryDirectory, call at 1, no_failure at 1. cbv iota beta.
    unfold bind at 1. rewrite merge_loop_calls.
    unfold source_merge_calls, bind, call, skip, ret, no_failure.
    destruct (has_artifacts model); simpl; subst l2;
      repeat rewrite <- app_assoc; reflexivity.
  - unfold call, no_failure. simpl. subst l2. now rewrite <- app_assoc.
Qed.

(** ** Paths inside the scratch directory *)

Lemma endswith_sep_append (s t : string) :
  Py.is_empty t = false -> Py.endswith_sep (s ++ t) = Py.endswith_sep t.
Proof.
  intros Ht. induction s as [|c s IH]; [reflexivity|].
  simpl. rewrite IH. destruct (s ++ t)%string eqn:E; [|reflexivity].
  destruct s; simpl in E; [subst t; discriminate | discriminate].
Qed.

Lemma endswith_contains (s : string) :
  Py.endswith_sep s = true -> Py.contains_sep s = true.
Proof.
  induction s as [|c s IH]; simpl; [discriminate|].
  destruct s as [|d s].
  - intros ->. reflexivity.
  - intros E. rewrite (IH E). apply orb_true_r.
Qed.

Lemma contains_sep_append (s t : string) :
  Py.contains_sep (s ++ t) = Py.contains_sep s || Py.contains_sep t.
Proof.
  induction s as [|c s IH]; simpl; [reflexivity|].
  rewrite IH. now rewrite orb_assoc.
Qed.

Lemma digits_no_sep (d : Decimal.uint) :
  Py.contains_sep (NilEmpty.string_of_uint d) = false.
Proof. induction d; simpl; auto. Qed.

Lemma format_02d_no_sep (n : nat) : Py.contains_sep (Py.format_02d n) = false.
Proof.
  unfold Py.format_02d. rewrite string_of_to_uint.
  destruct (_ <? 2)%nat; simpl; apply digits_no_sep.
Qed.

Lemma format_02d_not_empty (n : nat) : Py.is_empty (Py.format_02d n) = false.
Proof.
  unfold Py.format_02d. rewrite string_of_to_uint.
  destruct (_ <? 2)%nat eqn:E; [reflexivity|].
  destruct (NilEmpty.string_of_uint (Nat.to_uint n)); [discriminate E | reflexivity].
Qed.

Lemma rank_dir_literal scratch tp :
  Py.is_empty scratch = false -> Py.endswith_sep scratch = false ->
  mp_rank_dir scratch tp = (scratch ++ "/" ++ "mp_rank_" ++ Py.format_02d tp)%string.
Proof.
  intros H1 H2. unfold mp_rank_dir, Py.os_path_join, Py.join_step. simpl.
  now rewrite H1, H2.
Qed.

Lemma rank_dir_open scratch tp :
  Py.is_empty (scratch ++ "/" ++ "mp_rank_" ++ Py.format_02d tp) = false
  /\ Py.endswith_sep (scratch ++ "/" ++ "mp_rank_" ++ Py.format_02d tp) = false.
Proof.
  split.
  - destruct scratch; reflexivity.
  - rewrite endswith_sep_append by reflexivity.
    change ("/" ++ "mp_rank_" ++ Py.format_02d tp)%string
      with ("/mp_rank_" ++ Py.format_02d tp)%string.
    rewrite endswith_sep_append by apply format_02d_not_empty.
    destruct (Py.endswith_sep (Py.format_02d tp)) eqn:E; [|reflexivity].
    apply endswith_contains in E. now rewrite format_02d_no_sep in E.
Qed.

Lemma rank_weights_literal self scratch tp :
  plain_names self scratch ->
  mp_rank_weights self scratch tp
  = (scratch ++ "/" ++ "mp_rank_" ++ Py.format_02d tp ++ "/" ++ model_weights_ckpt self)%string.
Proof.
  intros (H1 & H2 & H3 & _).
  unfold mp_rank_weights, Py.os_path_join.
  change (fold_left Py.join_step [?a; ?b] ?d) with (Py.join_step (Py.join_step d a) b).
  change (Py.join_step scratch ("mp_rank_" ++ Py.format_02d tp))
    with (mp_rank_dir scratch tp).
  rewrite rank_dir_literal by assumption.
  unfold Py.join_step at 1. rewrite H3.
  destruct (rank_dir_open scratch tp) as [E1 E2]. rewrite E1, E2. simpl.
  now rewrite !append_assoc.
Qed.

Lemma config_yaml_literal self scratch :
  plain_names self scratch ->
  Py.os_path_join scratch [model_config_yaml self]
  = (scratch ++ "/" ++ model_config_yaml self)%string.
Proof.
  intros (H1 & H2 & _ & H4). unfold Py.os_path_join, Py.join_step. simpl.
  now rewrite H4, H1, H2.
Qed.

Lemma source_merge_is_spec_merge self model save_path scratch T :
  plain_names self scratch ->
  source_merge_calls self model save_path scratch T
  = merge_calls self model save_path scratch T.
Proof.
  intros P. pose proof P as (H1 & H2 & _).
  unfold source_merge_calls, merge_calls.
  rewrite (config_yaml_literal P).
  f_equal. f_equal.
  apply flat_map_ext. intros tp.
  rewrite rank_dir_literal by assumption.
  now rewrite (rank_weights_literal tp P).
Qed.

(** ** Which calls are which *)

Lemma source_merge_all_packaging self model save_path tmpdir T :
  Forall (fun a => is_packaging a = true)
         (source_merge_calls self model save_path tmpdir T).
Proof.
  unfold source_merge_calls. rewrite !Forall_app. repeat split.
  - repeat constructor.
  - apply Forall_flat_map, Forall_forall. intros tp _. repeat constructor.
  - repeat constructor.
  - destruct (has_artifacts model); repeat constructor.
  - repeat constructor.
Qed.

Lemma filter_all (A : Type) (p : A -> bool) (l : list A) :
  Forall (fun a => p a = true) l -> filter p l = l.
Proof. induction 1 as [|a l Ha _ IH]; simpl; [reflexivity | now rewrite Ha, IH]. Qed.

Lemma packaging_not_shard_write (l : list action) :
  Forall (fun a => is_packaging a = true) l -> shard_writes l = [].
Proof.
  induction 1 as [|a l Ha _ IH]; simpl; [reflexivity|].
  rewrite IH. destruct a; try discriminate Ha; reflexivity.
Qed.

Lemma packaging_no_write_no_barrier (l : list action) :
  Forall (fun a => is_packaging a = true) l ->
  existsb is_shard_write l = false /\ existsb is_barrier l = false.
Proof.
  induction 1 as [|a l Ha _ [IH1 IH2]]; simpl; [split; reflexivity|].
  rewrite IH1, IH2. destruct a; try discriminate Ha; split; reflexivity.
Qed.

Lemma flat_map_list_prod (A B C : Type) (f : A * B -> list C) (l : list A) (l' : list B) :
  flat_map f (list_prod l l') = flat_map (fun x => flat_map (fun y => f (x, y)) l') l.
Proof.
  induction l as [|x l IH]; simpl; [reflexivity|].
  rewrite flat_map_app, IH. f_equal. clear IH.
  induction l' as [|y l' IH']; simpl; [reflexivity | now rewrite IH'].
Qed.

Lemma flat_map_singleton (A B : Type) (f : A -> B) (l : list A) :
  flat_map (fun x => [f x]) l = map f l.
Proof. induction l as [|x l IH]; simpl; [reflexivity | now rewrite IH]. Qed.

Lemma flat_map_rank_zero (A : Type) (x : A) (D : nat) :
  0 < D ->
  flat_map (fun dp => if (dp =? 0)%nat then [x] else []) (seq 0 D) = [x].
Proof.
  assert (H : forall n k, 0 < k ->
            flat_map (fun dp => if (dp =? 0)%nat then [x] else []) (seq k n) = []).
  { induction n as [|n IH]; intros k Hk; simpl; [reflexivity|].
    rewrite IH by lia. destruct k; [lia | reflexivity]. }
  destruct D as [|D]; [lia|]. intros _. simpl. f_equal. apply H. lia.
Qed.

(** ** The checkpoint writer, worker by worker *)

Lemma worker_calls_single_stage (j : Job) (m tp dp : nat) :
  job_model_parallel_size j = Some m -> 1 < m ->
  job_pipeline_model_parallel_size j = 1 ->
  worker_calls j tp dp =
    (if (dp =? 0)%nat
     then [save_state_dict_to_disk (state_dict (job_model j tp dp))
             (mp_model_weights (job_connector j)
                (Py.os_path_dirname (job_save_path j)) tp)]
     else [])
    ++ (if job_dist_is_initialized j then [dist_barrier] else [])
    ++ (if (tp =? 0)%nat && (dp =? 0)%nat
        then source_merge_calls (job_connector j) (job_model j tp dp) (job_save_path j)
               (job_tmpdir j tp dp) (job_tensor_model_parallel_size j)
        else [logging_info not_implemented_msg]).
Proof.
  intros Hm Hgt Hpp. unfold worker_calls. rewrite save_to_calls_no_failure.
  unfold worker_env, model_parallel_in_use. simpl. rewrite Hm, Hpp.
  apply Nat.ltb_lt in Hgt. now rewrite Hgt.
Qed.

(** With any pipeline-parallel size other than 1 the method returns at
    once, whatever the collaborators would do. *)
Lemma save_to_other_pipeline_size raises self env model save_path log :
  model_parallel_in_use (app_state env) = true ->
  pipeline_model_parallel_size (app_state env) <> 1 ->
  save_to raises self env model save_path log = (log, Some tt).
Proof.
  intros Hmp Hpp. unfold save_to. cbv zeta. rewrite Hmp.
  apply Nat.eqb_neq in Hpp. now rewrite Hpp.
Qed.

(** The message about pipeline parallelism is what a worker other than the
    leader logs when the pipeline-parallel size is 1. *)
Lemma not_implemented_logged_by_non_leader self env model save_path :
  model_parallel_in_use (app_state env) = true ->
  pipeline_model_parallel_size (app_state env) = 1 ->
  (tensor_model_parallel_rank (app_state env) =? 0)%nat
    && (data_parallel_rank (app_state env) =? 0)%nat = false ->
  In (logging_info not_implemented_msg)
     (save_to_calls no_failure self env model save_path).
Proof.
  intros Hmp Hpp Hl. rewrite save_to_calls_no_failure. cbv zeta.
  rewrite Hmp, Hpp, Hl. simpl. rewrite !in_app_iff. right. right. now left.
Qed.

(** A missing shard is fatal: when a move raises, [save_to] raises, no
    archive is made, and the scratch directory is still removed. *)
Lemma failed_move_is_fatal self env model save_path :
  model_parallel_in_use (app_state env) = true ->
  pipeline_model_parallel_size (app_state env) = 1 ->
  tensor_model_parallel_rank (app_state env) = 0 ->
  data_parallel_rank (app_state env) = 0 ->
  0 < tensor_model_parallel_size (app_state env) ->
  let raises := fun a => match a with shutil_move _ _ => true | _ => false end in
  save_to_returns raises self env model save_path = false
  /\ (forall f d, ~ In (make_nemo_file_from_folder f d)
                      (save_to_calls raises self env model save_path))
  /\ In (TemporaryDirectory_exit (fresh_tmpdir env))
        (save_to_calls raises self env model save_path).
Proof.
  intros Hmp Hpp Htp Hdp HT raises.
  unfold save_to_returns, save_to_calls, save_to. cbv zeta.
  rewrite Hmp, Hpp, Htp, Hdp. simpl.
  destruct (tensor_model_parallel_size (app_state env)) as [|T]; [lia|].
  unfold bind, call, with_TemporaryDirectory, Py.range.
  destruct (dist_is_initialized env); simpl.
  - repeat split; [|tauto]. intros f d H.
    repeat (destruct H as [H|H]; [discriminate H|]). exact H.
  - repeat split; [|tauto]. intros f d H.
    repeat (destruct H as [H|H]; [discriminate H|]). exact H.
Qed.

(** ** Claims on the checkpoint writer *)

(** C3, evaluated on the code: with two pipeline stages (tensor-parallel
    size 2, data-parallel size 2, runtime initialized) every worker's
    [save_to] returns without a single call.  No shard is written and no
    archive is made, but the "not implemented" message is not logged
    either: the [else] that carries it is attached to the leader test. *)
Theorem save_to_two_pipeline_stages_is_silent :
  forall tp dp,
    save_to no_failure example_connector
      (worker_env (example_job 2 true) tp dp)
      (job_model (example_job 2 true) tp dp)
      (job_save_path (example_job 2 true)) []
    = ([], Some tt).
Proof. intros tp dp. apply save_to_other_pipeline_size; [reflexivity | discriminate]. Qed.

(** C4: with model parallelism in use and one pipeline stage, a worker
    writes a shard exactly when its data-parallel rank is 0, under the name
    [mp_rank_<tensor rank, two digits>_<weights file>] in the directory of
    the destination; over the whole grid these are as many distinct files as
    there are tensor-parallel ranks, however many data-parallel replicas
    there are. *)
Theorem shards_written_once_per_tensor_rank (j : Job) (m : nat) :
  job_model_parallel_size j = Some m -> 1 < m ->
  job_pipeline_model_parallel_size j = 1 ->
  0 < job_data_parallel_size j ->
  let shard := fun tp =>
    Py.os_path_join (Py.os_path_dirname (job_save_path j))
      [("mp_rank_" ++ Py.format_02d tp ++ "_"
          ++ model_weights_ckpt (job_connector j))%string] in
  (forall tp dp,
     shard_writes (worker_calls j tp dp) = if (dp =? 0)%nat then [shard tp] else [])
  /\ flat_map shard_writes (world_calls j)
     = map shard (seq 0 (job_tensor_model_parallel_size j))
  /\ NoDup (flat_map shard_writes (world_calls j))
  /\ List.length (flat_map shard_writes (world_calls j))
     = job_tensor_model_parallel_size j.
Proof.
  intros Hm Hgt Hpp HD shard.
  assert (W : forall tp dp,
    shard_writes (worker_calls j tp dp) = if (dp =? 0)%nat then [shard tp] else []).
  { intros tp dp. rewrite (worker_calls_single_stage j tp dp Hm Hgt Hpp).
    unfold shard_writes. rewrite !flat_map_app.
    fold (shard_writes (if job_dist_is_initialized j then [dist_barrier] else [])).
    match goal with |- _ ++ _ ++ flat_map ?f ?l = _ => change (flat_map f l) with (shard_writes l) end.
    assert (E3 : shard_writes
        (if (tp =? 0)%nat && (dp =? 0)%nat
         then source_merge_calls (job_connector j) (job_model j tp dp) (job_save_path j)
                (job_tmpdir j tp dp) (job_tensor_model_parallel_size j)
         else [logging_info not_implemented_msg]) = []).
    { destruct ((tp =? 0)%nat && (dp =? 0)%nat); [|reflexivity].
      apply packaging_not_shard_write, source_merge_all_packaging. }
    rewrite E3.
    destruct (job_dist_is_initialized j), (dp =? 0)%nat; reflexivity. }
  assert (E : flat_map shard_writes (world_calls j)
              = map shard (seq 0 (job_tensor_model_parallel_size j))).
  { unfold world_calls, grid. rewrite flat_map_concat_map, map_map, <- flat_map_concat_map.
    rewrite flat_map_list_prod. simpl.
    rewrite (flat_map_ext _ (fun tp => [shard tp])).
    - apply flat_map_singleton.
    - intros tp. rewrite (flat_map_ext _ (fun dp => if (dp =? 0)%nat then [shard tp] else [])).
      + now apply flat_map_rank_zero.
      + intros dp. apply W. }
  split; [exact W|]. split; [exact E|]. rewrite E. split.
  - apply Finite.Injective_map_NoDup; [|apply seq_NoDup].
    intros a b. apply (mp_model_weights_inj (job_connector j)).
  - now rewrite length_map, length_seq.
Qed.

Lemma shards_written_once_per_tensor_rank_witness :
  flat_map shard_writes (world_calls (example_job 1 true))
  = ["/results/mp_rank_00_model_weights.ckpt"; "/results/mp_rank_01_model_weights.ckpt"]
  /\ List.length (flat_map shard_writes (world_calls (example_job 1 true))) = 2.
Proof.
  destruct (@shards_written_once_per_tensor_rank (example_job 1 true) 2)
    as (_ & E & _ & L).
  - reflexivity.
  - lia.
  - reflexivity.
  - simpl. lia.
  - split; [exact E | exact L].
Defined.

(** C5: with model parallelism in use and one pipeline stage, the packaging
    calls of a worker are the whole merge when the worker is the global
    leader (tensor-parallel rank 0 and data-parallel rank 0) and none at all
    otherwise.  The merge: enter a fresh scratch directory, move every
    rank-tagged shard to [scratch/mp_rank_<NN>/<weights file>], write the
    config file and (when the model has any) the artifacts into the scratch
    root, make one archive at the destination, remove the scratch directory. *)
Theorem only_leader_packages self env model save_path :
  model_parallel_in_use (app_state env) = true ->
  pipeline_model_parallel_size (app_state env) = 1 ->
  plain_names self (fresh_tmpdir env) ->
  filter is_packaging (save_to_calls no_failure self env model save_path)
  = if (tensor_model_parallel_rank (app_state env) =? 0)%nat
       && (data_parallel_rank (app_state env) =? 0)%nat
    then merge_calls self model save_path (fresh_tmpdir env)
           (tensor_model_parallel_size (app_state env))
    else [].
Proof.
  intros Hmp Hpp Hplain. rewrite save_to_calls_no_failure. cbv zeta.
  rewrite Hmp, Hpp. simpl Nat.eqb. cbv iota.
  rewrite !filter_app.
  assert (E1 : forall l, filter is_packaging
      (if (data_parallel_rank (app_state env) =? 0)%nat
       then [save_state_dict_to_disk (state_dict model) l] else []) = []).
  { intros l. destruct (data_parallel_rank (app_state env) =? 0)%nat; reflexivity. }
  assert (E2 : filter is_packaging
      (if dist_is_initialized env then [dist_barrier] else []) = []).
  { destruct (dist_is_initialized env); reflexivity. }
  rewrite E1, E2. simpl.
  destruct ((tensor_model_parallel_rank (app_state env) =? 0)%nat
            && (data_parallel_rank (app_state env) =? 0)%nat); [|reflexivity].
  rewrite filter_all by apply source_merge_all_packaging.
  now apply source_merge_is_spec_merge.
Qed.

Lemma only_leader_packages_witness :
  filter is_packaging (worker_calls (example_job 1 true) 0 0)
  = [TemporaryDirectory_enter "/tmp/tmp0000";
     os_makedirs "/tmp/tmp0000/mp_rank_00";
     shutil_move "/results/mp_rank_00_model_weights.ckpt"
                 "/tmp/tmp0000/mp_rank_00/model_weights.ckpt";
     os_makedirs "/tmp/tmp0000/mp_rank_01";
     shutil_move "/results/mp_rank_01_model_weights.ckpt"
                 "/tmp/tmp0000/mp_rank_01/model_weights.ckpt";
     to_config_file "/tmp/tmp0000/model_config.yaml";
     handle_artifacts "/tmp/tmp0000";
     update_artifact_paths "/tmp/tmp0000/model_config.yaml";
     make_nemo_file_from_folder "/results/megatron_gpt.nemo" "/tmp/tmp0000";
     TemporaryDirectory_exit "/tmp/tmp0000"]
  /\ filter is_packaging (worker_calls (example_job 1 true) 1 0) = [].
Proof.
  split.
  - unfold worker_calls. rewrite only_leader_packages.
    + reflexivity.
    + reflexivity.
    + reflexivity.
    + repeat split.
  - unfold worker_calls. rewrite only_leader_packages.
    + reflexivity.
    + reflexivity.
    + reflexivity.
    + repeat split.
Defined.

(** ** The barrier *)

Lemma before_barrier_head a rest :
  before_barrier (a :: rest) -> is_barrier a = false ->
  is_packaging a = false /\ before_barrier rest.
Proof.
  intros (pre & post & E & Hpre & Hw & Hb) Ha.
  destruct pre as [|p pre]; simpl in E; inversion E; subst.
  - discriminate Ha.
  - inversion Hpre as [|? ? [Hp _] Hpre']; subst. split; [exact Hp|].
    exists pre, post. auto.
Qed.

Lemma before_barrier_at_barrier rest :
  before_barrier (dist_barrier :: rest) -> after_barrier rest.
Proof.
  intros (pre & post & E & Hpre & Hw & Hb).
  destruct pre as [|p pre]; simpl in E; inversion E; subst.
  - split; assumption.
  - inversion Hpre as [|? ? [_ Hp] _]. discriminate Hp.
Qed.

Lemma after_barrier_tail a rest : after_barrier (a :: rest) -> after_barrier rest.
Proof.
  intros [Hw Hb]. simpl in Hw, Hb.
  apply orb_false_iff in Hw as [_ Hw]. apply orb_false_iff in Hb as [_ Hb].
  split; assumption.
Qed.

Lemma step_keeps_phase c l c' : in_phase c -> step c l c' -> in_phase c'.
Proof.
  intros Hc Hs. destruct Hs as [before a rest after Ha | c Hne Hall].
  - destruct Hc as [Hc|Hc]; [left|right];
      apply Forall_app in Hc as [Hb Hc]; inversion Hc as [|? ? Hx Hafter]; subst;
      apply Forall_app; (split; [exact Hb|]); constructor; try exact Hafter.
    + now apply (before_barrier_head Hx).
    + now apply (after_barrier_tail Hx).
  - right. destruct Hc as [Hc|Hc].
    + apply Forall_map. rewrite Forall_forall in *. intros todo Hin.
      destruct (Hall todo Hin) as [rest ->]. simpl.
      apply before_barrier_at_barrier. now apply Hc.
    + destruct c as [|todo c]; [congruence|].
      inversion Hall as [|? ? [rest ->] _]; subst.
      inversion Hc as [|? ? [_ Hb] _]; subst. discriminate Hb.
Qed.

Lemma reachable_in_phase c0 c : in_phase c0 -> reachable c0 c -> in_phase c.
Proof.
  intros H0 R. induction R as [|c l c' _ IH Hs]; [exact H0|].
  exact (step_keeps_phase IH Hs).
Qed.

(** A worker can only make a packaging call once the world is past the
    barrier, and then no shard write is left anywhere. *)
Lemma packaging_step_after_writes c r a c' :
  in_phase c -> step c (by_worker r a) c' -> is_packaging a = true ->
  writes_finished c.
Proof.
  intros Hc Hs Hp. inversion Hs as [before a' rest after Ha E1 E2 E3|]; subst.
  destruct Hc as [Hc|Hc].
  - apply Forall_app in Hc as [_ Hc]. inversion Hc as [|? ? Hx _]; subst.
    destruct (before_barrier_head Hx Ha) as [Hnp _]. congruence.
  - unfold writes_finished. eapply Forall_impl; [|exact Hc].
    intros todo [Hw _]. exact Hw.
Qed.

Lemma world_starts_before_barrier (j : Job) (m : nat) :
  job_model_parallel_size j = Some m -> 1 < m ->
  job_pipeline_model_parallel_size j = 1 ->
  job_dist_is_initialized j = true ->
  Forall before_barrier (world_calls j).
Proof.
  intros Hm Hgt Hpp Hinit. unfold world_calls. apply Forall_map, Forall_forall.
  intros [tp dp] _. simpl.
  rewrite (worker_calls_single_stage j tp dp Hm Hgt Hpp), Hinit.
  eexists _, _. split; [reflexivity|]. split.
  - destruct (dp =? 0)%nat; repeat constructor.
  - destruct ((tp =? 0)%nat && (dp =? 0)%nat); [|split; reflexivity].
    apply packaging_no_write_no_barrier, source_merge_all_packaging.
Qed.

(** C9: with model parallelism in use, one pipeline stage and the runtime
    initialized, every worker's calls are its shard write (if any), then the
    barrier, then the rest, which holds no shard write and no second barrier;
    so in every interleaving of the workers, when some worker makes a call
    of the merge, no worker has a shard write left to do.  With the runtime
    not initialized no worker calls the barrier. *)
Theorem barrier_between_writes_and_merge (j : Job) (m : nat) :
  job_model_parallel_size j = Some m -> 1 < m ->
  job_pipeline_model_parallel_size j = 1 ->
  (job_dist_is_initialized j = true ->
     (forall tp dp, exists writes rest,
        worker_calls j tp dp = writes ++ dist_barrier :: rest
        /\ Forall (fun a => is_shard_write a = true) writes
        /\ existsb is_shard_write rest = false
        /\ existsb is_barrier rest = false)
     /\ (forall c r a c',
           reachable (world_calls j) c -> step c (by_worker r a) c' ->
           is_packaging a = true -> writes_finished c))
  /\ (job_dist_is_initialized j = false ->
      forall tp dp, existsb is_barrier (worker_calls j tp dp) = false).
Proof.
  intros Hm Hgt Hpp. split.
  - intros Hinit. split.
    + intros tp dp.
      rewrite (worker_calls_single_stage j tp dp Hm Hgt Hpp), Hinit.
      eexists _, _. split; [reflexivity|]. split.
      * destruct (dp =? 0)%nat; repeat constructor.
      * destruct ((tp =? 0)%nat && (dp =? 0)%nat); [|split; reflexivity].
        apply packaging_no_write_no_barrier, source_merge_all_packaging.
    + intros c r a c' R Hs Hp.
      apply (packaging_step_after_writes (c := c) (r := r) (a := a) (c' := c')); auto.
      apply (reachable_in_phase (c0 := world_calls j)); [|exact R].
      left. now apply (world_starts_before_barrier j Hm).
  - intros Hinit tp dp.
    rewrite (worker_calls_single_stage j tp dp Hm Hgt Hpp), Hinit.
    rewrite !existsb_app.
    assert (E : existsb is_barrier
        (if (tp =? 0)%nat && (dp =? 0)%nat
         then source_merge_calls (job_connector j) (job_model j tp dp) (job_save_path j)
                (job_tmpdir j tp dp) (job_tensor_model_parallel_size j)
         else [logging_info not_implemented_msg]) = false).
    { destruct ((tp =? 0)%nat && (dp =? 0)%nat); [|reflexivity].
      apply packaging_no_write_no_barrier, source_merge_all_packaging. }
    rewrite E. destruct (dp =? 0)%nat; reflexivity.
Qed.

(** An execution of the small job: the two writers write, everybody passes
    the barrier, the leader enters its scratch directory. *)
Lemma example_execution :
  reachable (world_calls (example_job 1 true)) example_past_barrier
  /\ step example_past_barrier
          (by_worker 0 (TemporaryDirectory_enter "/tmp/tmp0000"))
          [tl (tl (tl example_leader)); tl example_replica_of_leader;
           tl (tl example_writer); tl example_replica_of_writer].
Proof.
  split.
  - change (world_calls (example_job 1 true))
      with [example_leader; example_replica_of_leader;
            example_writer; example_replica_of_writer].
    eapply reach_step; [eapply reach_step; [eapply reach_step; [apply reach_start|] |] |].
    + exact (@step_local []
               (save_state_dict_to_disk "weights of tensor rank 00"
                  "/results/mp_rank_00_model_weights.ckpt")
               (tl example_leader)
               [example_replica_of_leader; example_writer; example_replica_of_writer]
               eq_refl).
    + exact (@step_local [tl example_leader; example_replica_of_leader]
               (save_state_dict_to_disk "weights of tensor rank 01"
                  "/results/mp_rank_01_model_weights.ckpt")
               (tl example_writer) [example_replica_of_writer] eq_refl).
    + apply (@step_barrier [tl example_leader; example_replica_of_leader;
                            tl example_writer; example_replica_of_writer]);
        [discriminate|].
      repeat constructor; eexists; reflexivity.
  - exact (@step_local [] (TemporaryDirectory_enter "/tmp/tmp0000")
             (tl (tl (tl example_leader)))
             [tl example_replica_of_leader; tl (tl example_writer);
              tl example_replica_of_writer] eq_refl).
Defined.

Lemma barrier_between_writes_and_merge_witness :
  writes_finished example_past_barrier.
Proof.
  destruct (@barrier_between_writes_and_merge (example_job 1 true) 2) as [H _].
  - reflexivity.
  - lia.
  - reflexivity.
  - destruct (H eq_refl) as [_ H2].
    destruct example_execution as [R S].
    exact (H2 _ _ _ _ R S eq_refl).
Defined.

(** ** The group reduction *)

Lemma all_reduce_MAX_bounds (others : list Z) (own : Z) :
  (own <= all_reduce_MAX own others)%Z
  /\ Forall (fun x => (x <= all_reduce_MAX own others)%Z) others.
Proof.
  unfold all_reduce_MAX. revert own.
  induction others as [|x others IH]; intros own; simpl.
  - split; [lia | constructor].
  - destruct (IH (Z.max own x)) as [H1 H2]. split; [lia|].
    constructor; [lia | exact H2].
Qed.

Lemma all_reduce_MAX_attained (others : list Z) (own : Z) :
  In (all_reduce_MAX own others) (own :: others).
Proof.
  unfold all_reduce_MAX. revert own.
  induction others as [|x others IH]; intros own; simpl.
  - now left.
  - destruct (IH (Z.max own x)) as [H|H]; [|now right; right].
    destruct (Z.max_spec own x) as [[_ E]|[_ E]]; rewrite E in *; auto.
Qed.

(** The reduction depends only on which values the group holds, not on
    which member is asking. *)
Lemma all_reduce_MAX_same_values (own1 own2 : Z) (others1 others2 : list Z) :
  (forall x, In x (own1 :: others1) <-> In x (own2 :: others2)) ->
  all_reduce_MAX own1 others1 = all_reduce_MAX own2 others2.
Proof.
  intros Hsame.
  assert (U : forall o l x, In x (o :: l) -> (x <= all_reduce_MAX o l)%Z).
  { intros o l x [<-|Hin].
    - apply all_reduce_MAX_bounds.
    - destruct (all_reduce_MAX_bounds l o) as [_ F].
      rewrite Forall_forall in F. now apply F. }
  pose proof (all_reduce_MAX_attained others1 own1) as A1.
  pose proof (all_reduce_MAX_attained others2 own2) as A2.
  apply Hsame in A1. apply Hsame in A2.
  apply U in A1. apply U in A2. lia.
Qed.

Lemma all_reduce_MAX_nonzero (own : Z) (others : list Z) :
  Forall (fun x => (0 <= x)%Z) (own :: others) ->
  (all_reduce_MAX own others <> 0%Z <-> Exists (fun x => x <> 0%Z) (own :: others)).
Proof.
  intros Hpos. split.
  - intros Hne. apply Exists_exists. exists (all_reduce_MAX own others).
    split; [apply all_reduce_MAX_attained | exact Hne].
  - intros Hex. apply Exists_exists in Hex as (x & Hin & Hx).
    rewrite Forall_forall in Hpos. pose proof (Hpos x Hin) as Hx0.
    assert (x <= all_reduce_MAX own others)%Z; [|lia].
    destruct Hin as [<-|Hin]; [apply all_reduce_MAX_bounds|].
    destruct (all_reduce_MAX_bounds others own) as [_ F].
    rewrite Forall_forall in F. now apply F.
Qed.

(** ** Claims on the scale controller: updating *)

(** C6: on an enabled scaler, [update()] without [new_scale] raises when no
    optimizer has a flag on record; the stale scale is not carried on. *)
Theorem update_without_inf_checks_raises (F : Type) `{Scalar F} (self : GradScaler F)
    (others : nat -> list Z) :
  _enabled self = true ->
  found_infs self = [] ->
  update self None others = Raised (AssertionError no_inf_checks_msg).
Proof.
  intros Hen Hnone. unfold update. now rewrite Hen, Hnone.
Qed.

Lemma update_without_inf_checks_raises_witness :
  update example_scaler None example_quiet_others
  = Raised (AssertionError no_inf_checks_msg).
Proof.
  apply update_without_inf_checks_raises; reflexivity.
Defined.

(** ** The combined overflow value over a group *)

Lemma reduce_and_add_sum others i rest acc :
  reduce_and_add others i rest acc = (acc + sumZ (reduced_flags others i rest))%Z.
Proof.
  revert i acc. induction rest as [|f rest IH]; intros i acc; simpl.
  - lia.
  - rewrite IH. lia.
Qed.

Lemma found_inf_combined_sum flags others :
  flags <> [] ->
  found_inf_combined flags others = Some (sumZ (reduced_flags others 0 flags)).
Proof.
  destruct flags as [|f rest]; [congruence|]. intros _. simpl.
  now rewrite reduce_and_add_sum.
Qed.

Lemma split_at_member (g : group) (r : nat) :
  r < List.length g ->
  g = firstn r g ++ nth r g [] :: skipn (S r) g.
Proof.
  revert g. induction r as [|r IH]; intros [|row g] Hr; simpl in *; try lia.
  - reflexivity.
  - f_equal. apply IH. lia.
Qed.

Lemma member_sees_column (g : group) (r i : nat) (x : Z) :
  r < List.length g ->
  In x (nth i (nth r g []) 0%Z :: others_of g r i) <-> In x (column g i).
Proof.
  intros Hr. unfold others_of, other_members, column.
  rewrite (split_at_member g Hr) at 4.
  rewrite !map_app. simpl. rewrite !in_app_iff. simpl. tauto.
Qed.

Lemma member_reduction_is_column_max (g : group) (r i : nat) :
  r < List.length g ->
  all_reduce_MAX (nth i (nth r g []) 0%Z) (others_of g r i) = column_max g i.
Proof.
  intros Hr. unfold column_max.
  destruct (column g i) as [|x rest] eqn:E.
  - unfold column in E. apply map_eq_nil in E. subst g. simpl in Hr. lia.
  - apply all_reduce_MAX_same_values. intros y.
    rewrite <- E. now apply member_sees_column.
Qed.

Lemma reduced_flags_columns (g : group) (r : nat) (flags : list Z) (i : nat) :
  r < List.length g ->
  skipn i (nth r g []) = flags ->
  reduced_flags (others_of g r) i flags
  = map (column_max g) (seq i (List.length flags)).
Proof.
  intros Hr. revert i. induction flags as [|f rest IH]; intros i Hs; simpl.
  - reflexivity.
  - assert (Hf : nth i (nth r g []) 0%Z = f /\ skipn (S i) (nth r g []) = rest).
    { clear IH. revert Hs. generalize (nth r g []). intros row. revert row.
      induction i as [|i IHi]; intros [|y row] Hs; simpl in Hs; try discriminate.
      - injection Hs as -> ->. split; reflexivity.
      - destruct (IHi row Hs) as [H1 H2]. split; [exact H1 | exact H2]. }
    destruct Hf as [Hf Hrest].
    rewrite <- Hf at 1. rewrite member_reduction_is_column_max by exact Hr.
    f_equal. now apply IH.
Qed.

(** What every member of a group feeds into the scale update: the sum, over
    the flag positions, of the maximum of that flag over the group. *)
Lemma member_combined_columns (g : group) (n r : nat) :
  Forall (fun flags => List.length flags = S n) g ->
  r < List.length g ->
  member_combined g r = Some (sumZ (map (column_max g) (seq 0 (S n)))).
Proof.
  intros Hlen Hr. unfold member_combined.
  assert (Hrow : List.length (nth r g []) = S n).
  { rewrite Forall_forall in Hlen. apply Hlen, nth_In, Hr. }
  rewrite found_inf_combined_sum.
  - rewrite (@reduced_flags_columns g r (nth r g []) 0 Hr eq_refl). now rewrite Hrow.
  - intros E. rewrite E in Hrow. discriminate Hrow.
Qed.

Lemma Exists_iff (A : Type) (P Q : A -> Prop) (l : list A) :
  (forall x, P x <-> Q x) -> (Exists P l <-> Exists Q l).
Proof.
  intros H. rewrite !Exists_exists.
  split; intros (x & Hin & Hx); exists x; (split; [exact Hin | now apply H]).
Qed.

Lemma sumZ_nonzero (l : list Z) :
  Forall (fun x => (0 <= x)%Z) l ->
  (sumZ l <> 0%Z <-> Exists (fun x => x <> 0%Z) l).
Proof.
  induction 1 as [|x l Hx Hl IH]; simpl.
  - split; [congruence | intros E; inversion E].
  - assert (Hs : (0 <= sumZ l)%Z).
    { clear IH. induction Hl as [|y l Hy _ IH]; simpl; lia. }
    split.
    + intros Hne. destruct (Z.eq_dec x 0) as [->|Hx0].
      * right. apply IH. simpl in Hne. lia.
      * now left.
    + intros E. inversion E as [? ? Hx0|? ? Hex]; subst; [lia|].
      apply IH in Hex. lia.
Qed.

Lemma column_nonneg (g : group) (i : nat) :
  Forall (Forall (fun f => (0 <= f)%Z)) g ->
  Forall (fun x => (0 <= x)%Z) (column g i).
Proof.
  intros Hpos. unfold column. apply Forall_map.
  eapply Forall_impl; [|exact Hpos]. intros flags Hf. simpl.
  destruct (Nat.lt_ge_cases i (List.length flags)) as [Hi|Hi].
  - rewrite Forall_forall in Hf. apply Hf, nth_In, Hi.
  - rewrite nth_overflow by exact Hi. lia.
Qed.

Lemma column_max_nonzero (g : group) (i : nat) :
  Forall (Forall (fun f => (0 <= f)%Z)) g ->
  (0 <= column_max g i)%Z
  /\ (column_max g i <> 0%Z <-> Exists (fun x => x <> 0%Z) (column g i)).
Proof.
  intros Hpos. pose proof (column_nonneg i Hpos) as Hc. unfold column_max.
  destruct (column g i) as [|x rest].
  - split; [lia|]. split; [congruence | intros E; inversion E].
  - split; [|now apply all_reduce_MAX_nonzero].
    inversion Hc; subst. pose proof (all_reduce_MAX_bounds rest x). lia.
Qed.

Lemma any_flag_set_columns (g : group) (n : nat) :
  Forall (fun flags => List.length flags = n) g ->
  any_flag_set g
  <-> Exists (fun i => Exists (fun x => x <> 0%Z) (column g i)) (seq 0 n).
Proof.
  intros Hlen. rewrite Forall_forall in Hlen. split.
  - intros (flags & f & Hflags & Hf & Hne).
    destruct (In_nth flags f 0%Z Hf) as (i & Hi & E).
    apply Exists_exists. exists i. split.
    + apply in_seq. rewrite <- (Hlen flags Hflags). lia.
    + apply Exists_exists. exists f. split; [|exact Hne].
      unfold column. apply in_map_iff. now exists flags.
  - intros Hex. apply Exists_exists in Hex as (i & _ & Hex).
    apply Exists_exists in Hex as (x & Hin & Hne).
    unfold column in Hin. apply in_map_iff in Hin as (flags & E & Hflags).
    exists flags, x. repeat split; try assumption.
    destruct (Nat.lt_ge_cases i (List.length flags)) as [Hi|Hi].
    + rewrite <- E. now apply nth_In.
    + rewrite nth_overflow in E by exact Hi. congruence.
Qed.

Lemma spec_local_or_nonzero (flags : list Z) :
  (0 <= spec_local_or flags)%Z
  /\ (spec_local_or flags <> 0%Z <-> exists f, In f flags /\ f <> 0%Z).
Proof.
  unfold spec_local_or.
  destruct (existsb (fun f => negb (f =? 0)%Z) flags) eqn:E.
  - split; [lia|]. split; [|discriminate].
    intros _. apply existsb_exists in E as (f & Hin & Hf).
    exists f. split; [exact Hin|]. apply negb_true_iff, Z.eqb_neq in Hf. exact Hf.
  - split; [lia|]. split; [congruence|].
    intros (f & Hin & Hf). exfalso.
    assert (existsb (fun f => negb (f =? 0)%Z) flags = true); [|congruence].
    apply existsb_exists. exists f. split; [exact Hin|].
    now apply negb_true_iff, Z.eqb_neq.
Qed.

Lemma spec_combined_flag_nonzero (g : group) (r : nat) :
  r < List.length g ->
  spec_combined_flag g r <> 0%Z <-> any_flag_set g.
Proof.
  intros Hr. unfold spec_combined_flag.
  assert (Hsame : forall x,
    In x (spec_local_or (nth r g []) :: map spec_local_or (other_members g r))
    <-> In x (map spec_local_or g)).
  { intros x. unfold other_members. rewrite (split_at_member g Hr) at 4.
    rewrite !map_app. simpl. rewrite !in_app_iff. simpl. tauto. }
  rewrite all_reduce_MAX_nonzero.
  - rewrite Exists_exists. split.
    + intros (x & Hin & Hne). apply Hsame, in_map_iff in Hin as (flags & <- & Hflags).
      apply spec_local_or_nonzero in Hne as (f & Hf & Hne).
      now exists flags, f.
    + intros (flags & f & Hflags & Hf & Hne).
      exists (spec_local_or flags). split.
      * apply Hsame, in_map_iff. now exists flags.
      * apply spec_local_or_nonzero. now exists f.
  - apply Forall_forall. intros x Hin.
    apply Hsame, in_map_iff in Hin as (flags & <- & _).
    apply spec_local_or_nonzero.
Qed.

(** For the sum to tell whether a flag is set the flags must be
    non-negative, as the 0.0 and 1.0 of an inf check are: flags of opposite
    sign would cancel. *)
Remark signed_flags_would_cancel :
  member_combined [[1; -1]]%Z 0 = Some 0%Z /\ any_flag_set [[1; -1]]%Z.
Proof.
  split; [reflexivity|].
  exists [1; -1]%Z, 1%Z. simpl. repeat split; auto. discriminate.
Qed.

(** ** Claims on the global-batch fetcher *)

Lemma draw_enough (Item : Type) (n : nat) (items : list Item) :
  n <= List.length items ->
  draw n (Some items) = (Some (skipn n items), Returned (firstn n items)).
Proof.
  revert items. induction n as [|n IH]; intros items Hn; simpl.
  - reflexivity.
  - destruct items as [|x items]; simpl in *; [lia|].
    rewrite IH by lia. reflexivity.
Qed.

Lemma draw_short (Item : Type) (n : nat) (items : list Item) :
  List.length items < n ->
  draw n (Some items) = (Some [], Raised StopIteration).
Proof.
  revert items. induction n as [|n IH]; intros items Hn; simpl.
  - lia.
  - destruct items as [|x items]; simpl in *; [reflexivity|].
    rewrite IH by lia. reflexivity.
Qed.

(** C10 as stated fails: with one item left and two microbatches per global
    batch, the call raises [StopIteration]; the item is gone and the counter
    has not moved. *)
Lemma fetch_at_end_of_data_does_not_count :
  _fetch_next_batch {| num_microbatches_calculator := 2 |} example_fetcher_at_end
  = ({| prefetch_batches := 0; store_on_device := false; num_micro_batches := 2;
        dataloader_iter := Some []; fetched := 0 |},
     Raised StopIteration)
  /\ fetched (fst (_fetch_next_batch {| num_microbatches_calculator := 2 |}
                     example_fetcher_at_end))
     <> fetched example_fetcher_at_end + 1.
Proof. split; [reflexivity | discriminate]. Qed.

(** C10, amended: the number of microbatches is read from the calculator
    once, by the constructor, and a call of [_fetch_next_batch] goes by the
    stored number whatever the calculator says by then.  When the iterator
    has at least that many items left, the call draws exactly that many, in
    order, as one list, and raises the counter by one; when it has fewer, the
    call drains it, raises [StopIteration] and leaves the counter as it
    was. *)
Theorem fetch_next_batch_draws_global_batch (Item : Type) (at_init now : Globals)
    (prefetch : nat) (on_device : bool) (self : GlobalBatchDataFetcher Item)
    (items : list Item) :
  dataloader_iter self = Some items ->
  num_micro_batches (GlobalBatchDataFetcher_init Item at_init prefetch on_device)
  = get_num_microbatches at_init
  /\ num_micro_batches (fst (_fetch_next_batch now self)) = num_micro_batches self
  /\ (num_micro_batches self <= List.length items ->
      snd (_fetch_next_batch now self)
      = Returned (firstn (num_micro_batches self) items)
      /\ dataloader_iter (fst (_fetch_next_batch now self))
         = Some (skipn (num_micro_batches self) items)
      /\ fetched (fst (_fetch_next_batch now self)) = fetched self + 1)
  /\ (List.length items < num_micro_batches self ->
      snd (_fetch_next_batch now self) = Raised StopIteration
      /\ dataloader_iter (fst (_fetch_next_batch now self)) = Some []
      /\ fetched (fst (_fetch_next_batch now self)) = fetched self).
Proof.
  intros Hit. split; [reflexivity|]. unfold _fetch_next_batch. rewrite Hit.
  split; [|split].
  - destruct (draw (num_micro_batches self) (Some items)) as [it [batch|e]]; reflexivity.
  - intros Hn. rewrite draw_enough by exact Hn. repeat split.
  - intros Hn. rewrite draw_short by exact Hn. repeat split.
Qed.

Lemma fetch_next_batch_draws_global_batch_witness :
  snd (_fetch_next_batch {| num_microbatches_calculator := 7 |} example_fetcher)
  = Returned [10; 11]
  /\ dataloader_iter (fst (_fetch_next_batch {| num_microbatches_calculator := 7 |}
                             example_fetcher))
     = Some [12; 13; 14]
  /\ fetched (fst (_fetch_next_batch {| num_microbatches_calculator := 7 |}
                     example_fetcher)) = 1.
Proof.
  destruct (@fetch_next_batch_draws_global_batch nat
              {| num_microbatches_calculator := 2 |}
              {| num_microbatches_calculator := 7 |} 0 false
              example_fetcher [10; 11; 12; 13; 14] eq_refl)
    as (_ & _ & Henough & _).
  apply Henough. simpl. lia.
Defined.

(** * Further properties of the code *)

(** ** [save_to] when collaborators raise *)

Lemma cut_at_raise_app raises l1 l2 :
  cut_at_raise raises (l1 ++ l2)
  = if none_raises raises l1 then l1 ++ cut_at_raise raises l2
    else cut_at_raise raises l1.
Proof.
  induction l1 as [|a l1 IH]; simpl; [reflexivity|].
  destruct (raises a); simpl; [reflexivity|]. rewrite IH.
  now destruct (none_raises raises l1).
Qed.

Lemma none_raises_app raises l1 l2 :
  none_raises raises (l1 ++ l2) = none_raises raises l1 && none_raises raises l2.
Proof. apply forallb_app. Qed.

Lemma none_raises_cut raises l :
  none_raises raises l = true -> cut_at_raise raises l = l.
Proof.
  induction l as [|a l IH]; simpl; [reflexivity|].
  destruct (raises a); simpl; [discriminate|]. intros H. now rewrite IH.
Qed.

Lemma cut_holds_the_raise raises l :
  none_raises raises l = false ->
  exists a, In a (cut_at_raise raises l) /\ raises a = true.
Proof.
  induction l as [|a l IH]; simpl; [discriminate|].
  destruct (raises a) eqn:E; simpl.
  - intros _. exists a. auto.
  - intros H. destruct (IH H) as (b & Hb & Rb). exists b. auto.
Qed.

Lemma none_raises_Forall raises l :
  none_raises raises l = true <-> Forall (fun a => raises a = false) l.
Proof.
  unfold none_raises. rewrite forallb_forall, Forall_forall.
  split; intros H a Ha; specialize (H a Ha); now apply negb_true_iff.
Qed.

Lemma for_each_call raises (calls : list action) (log : list action) :
  for_each calls (call raises) log
  = (log ++ cut_at_raise raises calls,
     if none_raises raises calls then Some tt else None).
Proof.
  revert log. induction calls as [|a calls IH]; intros log; simpl.
  - unfold skip, ret. now rewrite app_nil_r.
  - unfold bind, call at 1. destruct (raises a); simpl; [reflexivity|].
    rewrite IH. now rewrite <- app_assoc.
Qed.

Lemma bind_pointwise (A B : Type) (m m' : M A) (k k' : A -> M B) log :
  m log = m' log -> (forall a l, k a l = k' a l) -> bind m k log = bind m' k' log.
Proof.
  intros Hm Hk. unfold bind. rewrite Hm. destruct (m' log) as [l [a|]]; auto.
Qed.

Lemma bind_for_each raises l1 l2 log :
  bind (for_each l1 (call raises)) (fun _ => for_each l2 (call raises)) log
  = for_each (l1 ++ l2) (call raises) log.
Proof.
  unfold bind. rewrite (for_each_call raises l1), (for_each_call raises (l1 ++ l2)).
  rewrite cut_at_raise_app, none_raises_app.
  destruct (none_raises raises l1) eqn:E; cbv beta iota; simpl; [|reflexivity].
  rewrite for_each_call, (none_raises_cut raises l1 E). now rewrite app_assoc.
Qed.

Lemma bind_bind (A B C : Type) (m : M A) (k : A -> M B) (h : B -> M C) log :
  bind (bind m k) h log = bind m (fun a => bind (k a) h) log.
Proof. unfold bind. destruct (m log) as [l [a|]]; reflexivity. Qed.

Lemma scratch_loop_as_calls raises self dir_name tmpdir T log :
  for_each (Py.range T) (fun tp_rank =>
      bind (call raises (os_makedirs (mp_rank_dir tmpdir tp_rank))) (fun _ =>
        call raises (shutil_move (mp_model_weights self dir_name tp_rank)
                                 (mp_rank_weights self tmpdir tp_rank)))) log
  = for_each (flat_map (fun tp_rank =>
        [os_makedirs (mp_rank_dir tmpdir tp_rank);
         shutil_move (mp_model_weights self dir_name tp_rank)
                     (mp_rank_weights self tmpdir tp_rank)]) (seq 0 T))
      (call raises) log.
Proof.
  unfold Py.range. revert log. generalize 0.
  induction T as [|T IH]; intros s log; simpl; [reflexivity|].
  rewrite bind_bind. apply bind_pointwise; [reflexivity|]. intros _ l.
  apply bind_pointwise; [reflexivity|]. intros _ l'. apply IH.
Qed.

Lemma before_merge_as_calls raises self env model save_path log :
  bind (if (data_parallel_rank (app_state env) =? 0)%nat
        then call raises (save_state_dict_to_disk (state_dict model)
               (mp_model_weights self (Py.os_path_dirname save_path)
                  (tensor_model_parallel_rank (app_state env))))
        else skip)
       (fun _ => if dist_is_initialized env then call raises dist_barrier else skip) log
  = for_each (calls_before_merge self env model save_path) (call raises) log.
Proof.
  unfold calls_before_merge.
  destruct (data_parallel_rank (app_state env) =? 0)%nat, (dist_is_initialized env);
    simpl; unfold bind, skip, ret, call;
    repeat match goal with |- context [raises ?a] => destruct (raises a) end;
    reflexivity.
Qed.

Lemma in_scratch_as_calls raises self model save_path tmpdir T log :
  bind (for_each (Py.range T) (fun tp_rank =>
          bind (call raises (os_makedirs (mp_rank_dir tmpdir tp_rank))) (fun _ =>
            call raises (shutil_move
                           (mp_model_weights self (Py.os_path_dirname save_path) tp_rank)
                           (mp_rank_weights self tmpdir tp_rank)))))
       (fun _ =>
          bind (call raises (to_config_file (Py.os_path_join tmpdir [model_config_yaml self])))
            (fun _ =>
               bind (if has_artifacts model
                     then bind (call raises (handle_artifacts tmpdir)) (fun _ =>
                            call raises (update_artifact_paths
                                           (Py.os_path_join tmpdir [model_config_yaml self])))
                     else skip)
                 (fun _ => call raises (make_nemo_file_from_folder save_path tmpdir)))) log
  = for_each (calls_in_scratch self model save_path tmpdir T) (call raises) log.
Proof.
  unfold calls_in_scratch. rewrite <- bind_for_each.
  apply bind_pointwise; [apply scratch_loop_as_calls|]. intros _ l.
  destruct (has_artifacts model); simpl; unfold bind, skip, ret, call;
    repeat match goal with |- context [raises ?a] => destruct (raises a) end;
    reflexivity.
Qed.

(** The outcome of [save_to], branch by branch, whatever raises. *)
Lemma save_to_outcome raises self env model save_path :
  save_to raises self env model save_path [] =
  if model_parallel_in_use (app_state env) then
    if (pipeline_model_parallel_size (app_state env) =? 1)%nat then
      if is_leader (app_state env)
      then run_leader raises (calls_before_merge self env model save_path)
             (fresh_tmpdir env)
             (calls_in_scratch self model save_path (fresh_tmpdir env)
                (tensor_model_parallel_size (app_state env)))
      else run_calls raises
             (calls_before_merge self env model save_path
                ++ [logging_info not_implemented_msg])
    else ([], Some tt)
  else run_calls raises [super_save_to save_path].
Proof.
  unfold save_to. cbv zeta.
  destruct (model_parallel_in_use (app_state env)).
  2:{ unfold run_calls, call. simpl. now destruct (raises _). }
  destruct (pipeline_model_parallel_size (app_state env) =? 1)%nat; [|reflexivity].
  rewrite <- bind_bind.
  unfold bind at 1. rewrite before_merge_as_calls, for_each_call. simpl app.
  fold (is_leader (app_state env)).
  destruct (is_leader (app_state env)).
  - unfold run_leader.
    destruct (none_raises raises (calls_before_merge self env model save_path)) eqn:E;
      [|reflexivity].
    rewrite (none_raises_cut _ _ E).
    unfold with_TemporaryDirectory, call at 1.
    destruct (raises (TemporaryDirectory_enter (fresh_tmpdir env))); [reflexivity|].
    rewrite in_scratch_as_calls, for_each_call. unfold call.
    destruct (raises (TemporaryDirectory_exit (fresh_tmpdir env)));
      now rewrite <- !app_assoc.
  - unfold run_calls. rewrite cut_at_raise_app, none_raises_app.
    destruct (none_raises raises (calls_before_merge self env model save_path)) eqn:E;
      [|reflexivity].
    rewrite (none_raises_cut _ _ E). unfold call. simpl.
    now destruct (raises (logging_info not_implemented_msg)).
Qed.

Lemma in_cut_at_raise raises a l : In a (cut_at_raise raises l) -> In a l.
Proof.
  induction l as [|b l IH]; simpl; [tauto|].
  intros [E|H]; [now left|]. destruct (raises b); [destruct H|]. right. now apply IH.
Qed.

Lemma cut_clean_iff raises l :
  Forall (fun a => raises a = false) (cut_at_raise raises l)
  <-> none_raises raises l = true.
Proof.
  split.
  - intros F. destruct (none_raises raises l) eqn:E; [reflexivity|].
    destruct (cut_holds_the_raise raises l E) as (a & Ha & Ra).
    rewrite Forall_forall in F. specialize (F a Ha). congruence.
  - intros E. rewrite (none_raises_cut _ _ E). now apply none_raises_Forall.
Qed.

Lemma no_failure_none_raises l : none_raises no_failure l = true.
Proof. induction l as [|a l IH]; simpl; [reflexivity | exact IH]. Qed.

Lemma calls_in_scratch_split self model save_path tmpdir T :
  calls_in_scratch self model save_path tmpdir T
  = calls_before_archive self model save_path tmpdir T
    ++ [make_nemo_file_from_folder save_path tmpdir].
Proof. unfold calls_in_scratch, calls_before_archive. now rewrite <- !app_assoc. Qed.

Lemma calls_before_merge_kinds self env model save_path :
  Forall (fun a => is_packaging a = false)
         (calls_before_merge self env model save_path).
Proof.
  unfold calls_before_merge.
  destruct (data_parallel_rank (app_state env) =? 0)%nat, (dist_is_initialized env);
    repeat constructor.
Qed.

Lemma calls_before_archive_kinds self model save_path tmpdir T :
  Forall (fun a => is_scratch_bracket a = false /\ is_archive a = false)
         (calls_before_archive self model save_path tmpdir T).
Proof.
  unfold calls_before_archive. rewrite !Forall_app. repeat split.
  - apply Forall_flat_map, Forall_forall. intros tp _. repeat constructor.
  - repeat constructor.
  - destruct (has_artifacts model); repeat constructor.
Qed.

(** X1: [save_to] returns normally exactly when none of the calls it made
    raised, and it has then made the very calls of the run in which nothing
    raises. *)
Theorem save_to_returns_iff_nothing_raised raises self env model save_path :
  (save_to_returns raises self env model save_path = true
   <-> Forall (fun a => raises a = false)
              (save_to_calls raises self env model save_path))
  /\ (save_to_returns raises self env model save_path = true ->
      save_to_calls raises self env model save_path
      = save_to_calls no_failure self env model save_path).
Proof.
  unfold save_to_returns, save_to_calls. rewrite !save_to_outcome.
  assert (R : forall l,
    (match snd (run_calls raises l) with Some _ => true | None => false end = true
     <-> Forall (fun a => raises a = false) (fst (run_calls raises l)))
    /\ (match snd (run_calls raises l) with Some _ => true | None => false end = true ->
        fst (run_calls raises l) = fst (run_calls no_failure l))).
  { intros l. unfold run_calls. simpl. rewrite cut_clean_iff.
    rewrite (none_raises_cut no_failure l (no_failure_none_raises l)).
    destruct (none_raises raises l) eqn:E.
    - rewrite (none_raises_cut _ _ E). tauto.
    - split; [split; discriminate | discriminate]. }
  destruct (model_parallel_in_use (app_state env)); [|apply R].
  destruct (pipeline_model_parallel_size (app_state env) =? 1)%nat;
    [|simpl; split; [split; auto | reflexivity]].
  destruct (is_leader (app_state env)); [|apply R].
  unfold run_leader.
  set (before := calls_before_merge self env model save_path).
  set (inside := calls_in_scratch self model save_path (fresh_tmpdir env)
                   (tensor_model_parallel_size (app_state env))).
  rewrite (no_failure_none_raises before).
  rewrite (none_raises_cut no_failure inside (no_failure_none_raises inside)).
  change (no_failure (TemporaryDirectory_enter (fresh_tmpdir env))) with false.
  change (no_failure (TemporaryDirectory_exit (fresh_tmpdir env))) with false.
  cbv iota.
  destruct (none_raises raises before) eqn:Eb.
  2:{ simpl. split; [|discriminate]. split; [discriminate|].
      intros F. apply cut_clean_iff in F. congruence. }
  destruct (raises (TemporaryDirectory_enter (fresh_tmpdir env))) eqn:Ee.
  { simpl. split; [|discriminate]. split; [discriminate|].
    intros F. apply Forall_app in F as [_ F]. inversion F; congruence. }
  destruct (raises (TemporaryDirectory_exit (fresh_tmpdir env))) eqn:Ex.
  { simpl. split; [|discriminate]. split; [discriminate|].
    intros F. apply Forall_app in F as [_ F]. inversion F as [|? ? _ F']; subst.
    apply Forall_app in F' as [_ F']. inversion F'; congruence. }
  destruct (none_raises raises inside) eqn:Ei.
  - rewrite (none_raises_cut _ _ Ei). simpl. split; [|reflexivity].
    split; [|reflexivity]. intros _.
    apply Forall_app. split; [now apply none_raises_Forall|].
    constructor; [exact Ee|]. apply Forall_app.
    split; [now apply none_raises_Forall | now constructor].
  - simpl. split; [|discriminate]. split; [discriminate|].
    intros F. apply Forall_app in F as [_ F]. inversion F as [|? ? _ F']; subst.
    apply Forall_app in F' as [F' _]. apply cut_clean_iff in F'. congruence.
Qed.

Lemma not_in_by_kind (p : action -> bool) (a : action) (l : list action) :
  Forall (fun b => p b = false) l -> p a = true -> ~ In a l.
Proof.
  intros F Ha Hin. rewrite Forall_forall in F. specialize (F a Hin). congruence.
Qed.

Lemma before_merge_no_bracket self env model save_path :
  Forall (fun a => is_scratch_bracket a = false /\ is_archive a = false)
         (calls_before_merge self env model save_path).
Proof.
  unfold calls_before_merge.
  destruct (data_parallel_rank (app_state env) =? 0)%nat, (dist_is_initialized env);
    repeat constructor.
Qed.

Lemma in_scratch_no_bracket self model save_path tmpdir T :
  Forall (fun a => is_scratch_bracket a = false)
         (calls_in_scratch self model save_path tmpdir T).
Proof.
  rewrite calls_in_scratch_split. apply Forall_app. split.
  - eapply Forall_impl; [|apply calls_before_archive_kinds]. now intros a [H _].
  - repeat constructor.
Qed.

(** X2: whatever raises, a scratch directory that [save_to] has entered is
    removed again, and that removal is the last call [save_to] makes. *)
Theorem scratch_directory_always_removed raises self env model save_path d :
  In (TemporaryDirectory_enter d) (save_to_calls raises self env model save_path) ->
  raises (TemporaryDirectory_enter d) = false ->
  exists before,
    save_to_calls raises self env model save_path
    = before ++ [TemporaryDirectory_exit d].
Proof.
  unfold save_to_calls. rewrite save_to_outcome.
  assert (Hb : forall x, is_scratch_bracket x = true ->
                         ~ In x (calls_before_merge self env model save_path)).
  { intros x Hx. apply (not_in_by_kind is_scratch_bracket); [|exact Hx].
    eapply Forall_impl; [|apply before_merge_no_bracket]. now intros a [H _]. }
  destruct (model_parallel_in_use (app_state env)).
  2:{ simpl. intros [H|H]; [discriminate H|].
      destruct (raises (super_save_to save_path)); destruct H. }
  destruct (pipeline_model_parallel_size (app_state env) =? 1)%nat;
    [|intros H; destruct H].
  destruct (is_leader (app_state env)).
  - unfold run_leader.
    destruct (none_raises raises (calls_before_merge self env model save_path)).
    2:{ simpl. intros H _. apply in_cut_at_raise in H. now apply Hb in H. }
    destruct (raises (TemporaryDirectory_enter (fresh_tmpdir env))) eqn:Ee; simpl.
    + intros H R. apply in_app_iff in H as [H|[H|[]]]; [now apply Hb in H|].
      injection H as <-. congruence.
    + intros H _. assert (Hd : d = fresh_tmpdir env).
      { apply in_app_iff in H as [H|[H|H]]; [now apply Hb in H | now injection H|].
        apply in_app_iff in H as [H|[H|[]]]; [|discriminate H].
        apply in_cut_at_raise in H. exfalso.
        revert H. apply (not_in_by_kind is_scratch_bracket); [|reflexivity].
        apply in_scratch_no_bracket. }
      subst d.
      exists (calls_before_merge self env model save_path
              ++ TemporaryDirectory_enter (fresh_tmpdir env)
                 :: cut_at_raise raises
                      (calls_in_scratch self model save_path (fresh_tmpdir env)
                         (tensor_model_parallel_size (app_state env)))).
      now rewrite <- app_assoc.
  - simpl. intros H _. apply in_cut_at_raise, in_app_iff in H as [H|[H|[]]];
      [now apply Hb in H | discriminate H].
Qed.

Lemma scratch_directory_always_removed_witness :
  exists before,
    save_to_calls shards_missing example_connector
      (worker_env (example_job 1 true) 0 0) (job_model (example_job 1 true) 0 0)
      "/results/megatron_gpt.nemo"
    = before ++ [TemporaryDirectory_exit "/tmp/tmp0000"].
Proof.
  apply scratch_directory_always_removed.
  - vm_compute. tauto.
  - reflexivity.
Defined.

(** X3: whatever raises, the archive is only made after every one of the
    [tensor_model_parallel_size] shards has been moved into the scratch
    directory and the config file has been written there, none of these
    calls having raised; it is made from the scratch directory, at the
    destination path. *)
Theorem archive_only_after_every_move raises self env model save_path f d :
  In (make_nemo_file_from_folder f d)
     (save_to_calls raises self env model save_path) ->
  f = save_path /\ d = fresh_tmpdir env
  /\ (forall tp_rank, tp_rank < tensor_model_parallel_size (app_state env) ->
      let moved := shutil_move
                     (mp_model_weights self (Py.os_path_dirname save_path) tp_rank)
                     (mp_rank_weights self d tp_rank) in
      In moved (save_to_calls raises self env model save_path)
      /\ raises moved = false)
  /\ In (to_config_file (Py.os_path_join d [model_config_yaml self]))
        (save_to_calls raises self env model save_path)
  /\ raises (to_config_file (Py.os_path_join d [model_config_yaml self])) = false.
Proof.
  unfold save_to_calls. rewrite save_to_outcome.
  assert (Hb : forall x, is_archive x = true ->
                         ~ In x (calls_before_merge self env model save_path)).
  { intros x Hx. apply (not_in_by_kind is_archive); [|exact Hx].
    eapply Forall_impl; [|apply before_merge_no_bracket]. now intros a [_ H]. }
  destruct (model_parallel_in_use (app_state env)).
  2:{ simpl. intros [H|H]; [discriminate H|].
      destruct (raises (super_save_to save_path)); destruct H. }
  destruct (pipeline_model_parallel_size (app_state env) =? 1)%nat;
    [|intros H; destruct H].
  destruct (is_leader (app_state env)).
  2:{ simpl. intros H. apply in_cut_at_raise, in_app_iff in H as [H|[H|[]]];
        [now apply Hb in H | discriminate H]. }
  unfold run_leader.
  destruct (none_raises raises (calls_before_merge self env model save_path)).
  2:{ simpl. intros H. apply in_cut_at_raise in H. now apply Hb in H. }
  destruct (raises (TemporaryDirectory_enter (fresh_tmpdir env))); simpl.
  { intros H. apply in_app_iff in H as [H|[H|[]]]; [now apply Hb in H | discriminate H]. }
  set (T := tensor_model_parallel_size (app_state env)).
  set (tmpdir := fresh_tmpdir env).
  intros H.
  apply in_app_iff in H as [H|[H|H]]; [now apply Hb in H | discriminate H|].
  apply in_app_iff in H as [H|[H|[]]]; [|discriminate H].
  rewrite calls_in_scratch_split, cut_at_raise_app in H.
  pose proof (calls_before_archive_kinds self model save_path tmpdir T) as K.
  destruct (none_raises raises (calls_before_archive self model save_path tmpdir T)) eqn:E.
  2:{ apply in_cut_at_raise in H. exfalso. revert H.
      apply (not_in_by_kind is_archive); [|reflexivity].
      eapply Forall_impl; [|exact K]. now intros a [_ Ha]. }
  apply in_app_iff in H as [H|H].
  { exfalso. revert H. apply (not_in_by_kind is_archive); [|reflexivity].
    eapply Forall_impl; [|exact K]. now intros a [_ Ha]. }
  simpl in H. destruct H as [H|H].
  2:{ destruct (raises (make_nemo_file_from_folder save_path tmpdir)); destruct H. }
  injection H as <- <-.
  apply none_raises_Forall in E. rewrite Forall_forall in E.
  assert (Hin : forall a,
    In a (calls_before_archive self model save_path tmpdir T) ->
    In a (calls_before_merge self env model save_path
          ++ TemporaryDirectory_enter tmpdir
             :: cut_at_raise raises (calls_in_scratch self model save_path tmpdir T)
                ++ [TemporaryDirectory_exit tmpdir])).
  { intros a Ha. apply in_app_iff. right. right. apply in_app_iff. left.
    rewrite calls_in_scratch_split, cut_at_raise_app.
    replace (none_raises raises (calls_before_archive self model save_path tmpdir T))
      with true.
    - apply in_app_iff. now left.
    - symmetry. apply none_raises_Forall, Forall_forall. exact E. }
  split; [reflexivity|]. split; [reflexivity|]. split.
  - intros tp Htp.
    match goal with |- In ?m _ /\ _ => set (moved := m) end.
    assert (Hm : In moved (calls_before_archive self model save_path tmpdir T)).
    { unfold calls_before_archive. apply in_app_iff. left.
      apply in_flat_map. exists tp. split; [apply in_seq; lia|]. right. now left. }
    split; [now apply Hin | now apply E].
  - assert (Hc : In (to_config_file (Py.os_path_join tmpdir [model_config_yaml self]))
                    (calls_before_archive self model save_path tmpdir T)).
    { unfold calls_before_archive. apply in_app_iff. right. now left. }
    split; [now apply Hin | now apply E].
Qed.

Lemma archive_only_after_every_move_witness :
  In (shutil_move "/results/mp_rank_01_model_weights.ckpt"
                  "/tmp/tmp0000/mp_rank_01/model_weights.ckpt")
     (worker_calls (example_job 1 true) 0 0).
Proof.
  destruct (@archive_only_after_every_move no_failure example_connector
              (worker_env (example_job 1 true) 0 0)
              (job_model (example_job 1 true) 0 0)
              "/results/megatron_gpt.nemo"
              "/results/megatron_gpt.nemo" "/tmp/tmp0000")
    as (_ & _ & Hmoves & _).
  - vm_compute. tauto.
  - destruct (Hmoves 1) as [Hin _]; [simpl; lia|]. exact Hin.
Defined.

(** ** What the leader moves *)

Lemma world_shard_writes (j : Job) (m : nat) :
  job_model_parallel_size j = Some m -> 1 < m ->
  job_pipeline_model_parallel_size j = 1 ->
  0 < job_data_parallel_size j ->
  flat_map shard_writes (world_calls j)
  = map (mp_model_weights (job_connector j) (Py.os_path_dirname (job_save_path j)))
        (seq 0 (job_tensor_model_parallel_size j)).
Proof.
  intros Hm Hgt Hpp HD.
  unfold world_calls, grid.
  rewrite flat_map_concat_map, map_map, <- flat_map_concat_map, flat_map_list_prod.
  rewrite <- flat_map_singleton. apply flat_map_ext. intros tp.
  rewrite <- (flat_map_rank_zero _ HD). apply flat_map_ext. intros dp. simpl.
  rewrite (worker_calls_single_stage j tp dp Hm Hgt Hpp).
  unfold shard_writes. rewrite !flat_map_app.
  assert (E3 : flat_map (fun a => match a with
                                  | save_state_dict_to_disk _ path => [path]
                                  | _ => []
                                  end)
      (if (tp =? 0)%nat && (dp =? 0)%nat
       then source_merge_calls (job_connector j) (job_model j tp dp) (job_save_path j)
              (job_tmpdir j tp dp) (job_tensor_model_parallel_size j)
       else [logging_info not_implemented_msg]) = []).
  { destruct ((tp =? 0)%nat && (dp =? 0)%nat); [|reflexivity].
    apply packaging_not_shard_write, source_merge_all_packaging. }
  rewrite E3.
  destruct (job_dist_is_initialized j), (dp =? 0)%nat; reflexivity.
Qed.

Lemma move_sources_of_loop (src dst : nat -> string) (mk : nat -> string) (l : list nat) :
  move_sources (flat_map (fun tp => [os_makedirs (mk tp); shutil_move (src tp) (dst tp)]) l)
  = map src l
  /\ move_targets (flat_map (fun tp => [os_makedirs (mk tp); shutil_move (src tp) (dst tp)]) l)
     = map dst l.
Proof.
  induction l as [|x l [IH1 IH2]]; simpl; [split; reflexivity|].
  unfold move_sources, move_targets in *. simpl. now rewrite IH1, IH2.
Qed.

Lemma move_sources_app l1 l2 :
  move_sources (l1 ++ l2) = move_sources l1 ++ move_sources l2.
Proof. apply flat_map_app. Qed.

Lemma move_targets_app l1 l2 :
  move_targets (l1 ++ l2) = move_targets l1 ++ move_targets l2.
Proof. apply flat_map_app. Qed.

Lemma merge_moves self model save_path tmpdir T :
  move_sources (source_merge_calls self model save_path tmpdir T)
  = map (mp_model_weights self (Py.os_path_dirname save_path)) (seq 0 T)
  /\ move_targets (source_merge_calls self model save_path tmpdir T)
     = map (mp_rank_weights self tmpdir) (seq 0 T).
Proof.
  unfold source_merge_calls.
  destruct (move_sources_of_loop
              (mp_model_weights self (Py.os_path_dirname save_path))
              (mp_rank_weights self tmpdir) (mp_rank_dir tmpdir) (seq 0 T)) as [E1 E2].
  rewrite !move_sources_app, !move_targets_app, E1, E2.
  destruct (has_artifacts model); simpl; now rewrite !app_nil_r.
Qed.

Lemma leader_moves (j : Job) (m : nat) :
  job_model_parallel_size j = Some m -> 1 < m ->
  job_pipeline_model_parallel_size j = 1 ->
  move_sources (worker_calls j 0 0)
  = map (mp_model_weights (job_connector j) (Py.os_path_dirname (job_save_path j)))
        (seq 0 (job_tensor_model_parallel_size j))
  /\ move_targets (worker_calls j 0 0)
     = map (mp_rank_weights (job_connector j) (job_tmpdir j 0 0))
           (seq 0 (job_tensor_model_parallel_size j)).
Proof.
  intros Hm Hgt Hpp.
  rewrite (worker_calls_single_stage j 0 0 Hm Hgt Hpp).
  change ((0 =? 0)%nat && (0 =? 0)%nat) with true. cbv iota.
  destruct (merge_moves (job_connector j) (job_model j 0 0) (job_save_path j)
              (job_tmpdir j 0 0) (job_tensor_model_parallel_size j)) as [E1 E2].
  rewrite !move_sources_app, !move_targets_app, E1, E2.
  destruct (job_dist_is_initialized j); split; reflexivity.
Qed.

Lemma rank_name_open (p : string) (tp : nat) :
  Py.is_empty (p ++ "mp_rank_" ++ Py.format_02d tp) = false
  /\ Py.endswith_sep (p ++ "mp_rank_" ++ Py.format_02d tp) = false.
Proof.
  split.
  - destruct p; reflexivity.
  - rewrite endswith_sep_append by reflexivity.
    rewrite endswith_sep_append by apply format_02d_not_empty.
    destruct (Py.endswith_sep (Py.format_02d tp)) eqn:E; [|reflexivity].
    apply endswith_contains in E. now rewrite format_02d_no_sep in E.
Qed.

Lemma mp_rank_weights_prefix self tmpdir tp :
  Py.startswith_sep (model_weights_ckpt self) = false ->
  mp_rank_weights self tmpdir tp
  = ((join_prefix tmpdir ++ "mp_rank_" ++ Py.format_02d tp)
       ++ "/" ++ model_weights_ckpt self)%string.
Proof.
  intros Hc. unfold mp_rank_weights, Py.os_path_join.
  change (fold_left Py.join_step [?a; ?b] ?d) with (Py.join_step (Py.join_step d a) b).
  rewrite (join_step_relative tmpdir) by reflexivity.
  rewrite join_step_relative by exact Hc.
  unfold join_prefix at 1.
  destruct (rank_name_open (join_prefix tmpdir) tp) as [E1 E2].
  rewrite E1, E2. simpl. now rewrite !append_assoc.
Qed.

Lemma mp_rank_weights_inj self tmpdir tp tp' :
  Py.startswith_sep (model_weights_ckpt self) = false ->
  mp_rank_weights self tmpdir tp = mp_rank_weights self tmpdir tp' -> tp = tp'.
Proof.
  intros Hc. rewrite !mp_rank_weights_prefix by exact Hc. intros E.
  apply append_inv_tail, append_inv_head, (append_inv_head "mp_rank_") in E.
  now apply format_02d_inj.
Qed.

(** X4: with one pipeline stage, the files the leader moves into the scratch
    directory are exactly the shards the workers of the grid have written,
    each once; and when the weights file name is not an absolute path the
    places they are moved to are pairwise distinct, so no shard overwrites
    another. *)
Theorem leader_moves_what_writers_wrote (j : Job) (m : nat) :
  job_model_parallel_size j = Some m -> 1 < m ->
  job_pipeline_model_parallel_size j = 1 ->
  0 < job_data_parallel_size j ->
  move_sources (worker_calls j 0 0) = flat_map shard_writes (world_calls j)
  /\ NoDup (move_sources (worker_calls j 0 0))
  /\ (Py.startswith_sep (model_weights_ckpt (job_connector j)) = false ->
      NoDup (move_targets (worker_calls j 0 0))).
Proof.
  intros Hm Hgt Hpp HD.
  destruct (leader_moves j Hm Hgt Hpp) as [Es Et].
  rewrite (world_shard_writes j Hm Hgt Hpp HD), Es, Et.
  split; [reflexivity|]. split.
  - apply Finite.Injective_map_NoDup; [|apply seq_NoDup].
    intros a b. apply mp_model_weights_inj.
  - intros Hc. apply Finite.Injective_map_NoDup; [|apply seq_NoDup].
    intros a b. now apply mp_rank_weights_inj.
Qed.

Lemma leader_moves_what_writers_wrote_witness :
  move_sources (worker_calls (example_job 1 true) 0 0)
  = flat_map shard_writes (world_calls (example_job 1 true))
  /\ NoDup (move_targets (worker_calls (example_job 1 true) 0 0)).
Proof.
  destruct (@leader_moves_what_writers_wrote (example_job 1 true) 2)
    as (E & _ & N).
  - reflexivity.
  - lia.
  - reflexivity.
  - simpl. lia.
  - split; [exact E | apply N; reflexivity].
Defined.

(** ** Who saves *)

Lemma filter_rank_zero (tp D : nat) :
  0 < D ->
  filter (fun c : nat * nat => (snd c =? 0)%nat)
         (map (fun y : nat => (tp, y)) (seq 0 D)) = [(tp, 0)].
Proof.
  assert (H : forall n k, 0 < k ->
            filter (fun c : nat * nat => (snd c =? 0)%nat)
                   (map (fun y : nat => (tp, y)) (seq k n)) = []).
  { induction n as [|n IH]; intros k Hk; simpl; [reflexivity|].
    destruct k; [lia|]. simpl. apply IH. lia. }
  destruct D as [|D]; [lia|]. intros _. simpl. f_equal. apply H. lia.
Qed.

(** X5: with model parallelism in use and one pipeline stage, the workers
    that [should_rank_save_checkpoint] lets save a checkpoint are exactly
    those that write a shard in [save_to], whatever the base class would
    have answered; over the grid there is one of them for every
    tensor-parallel rank. *)
Theorem checkpoint_savers_are_shard_writers (j : Job) (m : nat) (inherited : bool) :
  job_model_parallel_size j = Some m -> 1 < m ->
  job_pipeline_model_parallel_size j = 1 ->
  0 < job_data_parallel_size j ->
  (forall tp dp,
     should_rank_save_checkpoint (app_state (worker_env j tp dp)) inherited = true
     <-> shard_writes (worker_calls j tp dp) <> [])
  /\ map fst (filter (fun c => should_rank_save_checkpoint
                                 (app_state (worker_env j (fst c) (snd c))) inherited)
                     (grid j))
     = seq 0 (job_tensor_model_parallel_size j).
Proof.
  intros Hm Hgt Hpp HD.
  assert (S : forall tp dp,
    should_rank_save_checkpoint (app_state (worker_env j tp dp)) inherited
    = (dp =? 0)%nat).
  { intros tp dp. unfold should_rank_save_checkpoint, model_parallel_in_use. simpl.
    rewrite Hm. apply Nat.ltb_lt in Hgt. now rewrite Hgt. }
  split.
  - intros tp dp. rewrite S, (worker_calls_single_stage j tp dp Hm Hgt Hpp).
    unfold shard_writes. rewrite !flat_map_app.
    destruct (dp =? 0)%nat; simpl; [split; [discriminate | reflexivity]|].
    split; [discriminate|]. intros H. exfalso. apply H.
    assert (E3 : shard_writes
        (if (tp =? 0)%nat && false
         then source_merge_calls (job_connector j) (job_model j tp dp) (job_save_path j)
                (job_tmpdir j tp dp) (job_tensor_model_parallel_size j)
         else [logging_info not_implemented_msg]) = []).
    { now rewrite andb_false_r. }
    unfold shard_writes in E3. rewrite E3.
    now destruct (job_dist_is_initialized j).
  - rewrite (filter_ext _ (fun c : nat * nat => (snd c =? 0)%nat))
      by (intros [tp dp]; apply S).
    unfold grid. generalize (seq 0 (job_tensor_model_parallel_size j)). intros l.
    induction l as [|tp l IH]; simpl; [reflexivity|].
    rewrite filter_app, map_app, IH, (filter_rank_zero tp HD). reflexivity.
Qed.

Lemma checkpoint_savers_are_shard_writers_witness :
  map fst (filter (fun c => should_rank_save_checkpoint
                              (app_state (worker_env (example_job 1 true) (fst c) (snd c)))
                              false)
                  (grid (example_job 1 true)))
  = [0; 1].
Proof.
  destruct (@checkpoint_savers_are_shard_writers (example_job 1 true) 2 false)
    as [_ E].
  - reflexivity.
  - lia.
  - reflexivity.
  - simpl. lia.
  - exact E.
Defined.

(** ** The barrier never hangs *)

Lemma before_barrier_can_move c :
  Forall before_barrier c ->
  Forall (fun todo => exists rest, todo = dist_barrier :: rest) c
  \/ exists before a rest after,
       c = before ++ (a :: rest) :: after /\ is_barrier a = false.
Proof.
  induction 1 as [|todo c Ht _ IH]; [left; constructor|].
  destruct Ht as (pre & post & -> & Hpre & _).
  destruct pre as [|a pre].
  - destruct IH as [IH|(before & a & rest & after & -> & Ha)].
    + left. constructor; [now exists post | exact IH].
    + right. exists ((dist_barrier :: post) :: before), a, rest, after. auto.
  - right. exists [], a, (pre ++ dist_barrier :: post), c. split; [reflexivity|].
    inversion Hpre as [|? ? [_ Ha] _]. exact Ha.
Qed.

Lemma after_barrier_can_move c :
  Forall after_barrier c ->
  all_done c
  \/ exists before a rest after,
       c = before ++ (a :: rest) :: after /\ is_barrier a = false.
Proof.
  induction 1 as [|todo c Ht _ IH]; [left; constructor|].
  destruct todo as [|a rest].
  - destruct IH as [IH|(before & a & rest & after & -> & Ha)].
    + left. constructor; [reflexivity | exact IH].
    + right. exists ([] :: before), a, rest, after. auto.
  - right. exists [], a, rest, c. split; [reflexivity|].
    destruct Ht as [_ Hb]. simpl in Hb. now apply orb_false_iff in Hb as [Hb _].
Qed.

Lemma step_uses_up_a_call c l c' : step c l c' -> remaining c' < remaining c.
Proof.
  unfold remaining. intros Hs. destruct Hs as [before a rest after Ha | c Hne Hall].
  - rewrite !map_app, !list_sum_app. simpl. lia.
  - destruct c as [|todo c]; [congruence|].
    inversion Hall as [|? ? [rest ->] Hall']; subst. simpl.
    assert (list_sum (map (@List.length action) (map (@tl action) c))
            <= list_sum (map (@List.length action) c)); [|lia].
    clear. induction c as [|t c IH]; simpl; [lia|].
    destruct t; simpl; lia.
Qed.

(** X6: with model parallelism in use, one pipeline stage and the runtime
    initialized, in a run in which no call of any worker raises, the workers
    of the grid do not hang at the barrier: in every configuration they can
    reach, either every worker is done or some step is possible; and every
    step uses up a call, so every such execution comes to an end with every
    worker done.  A run in which a shard write raises is another matter, see
    below. *)
Theorem save_never_hangs_at_barrier (j : Job) (m : nat) :
  job_model_parallel_size j = Some m -> 1 < m ->
  job_pipeline_model_parallel_size j = 1 ->
  job_dist_is_initialized j = true ->
  forall c, reachable (world_calls j) c ->
    (all_done c \/ exists l c', step c l c')
    /\ (forall l c', step c l c' -> remaining c' < remaining c).
Proof.
  intros Hm Hgt Hpp Hinit c R. split; [|intros l c'; apply step_uses_up_a_call].
  assert (P : in_phase c).
  { apply (reachable_in_phase (c0 := world_calls j)); [|exact R].
    left. now apply (world_starts_before_barrier j Hm). }
  destruct P as [P|P].
  - destruct (before_barrier_can_move P) as [B|(before & a & rest & after & -> & Ha)].
    + destruct c as [|todo c]; [left; constructor|].
      right. eexists _, _. apply step_barrier; [discriminate | exact B].
    + right. eexists _, _. now apply step_local.
  - destruct (after_barrier_can_move P) as [D|(before & a & rest & after & -> & Ha)].
    + now left.
    + right. eexists _, _. now apply step_local.
Qed.

Lemma save_never_hangs_at_barrier_witness :
  (all_done example_past_barrier \/ exists l c', step example_past_barrier l c')
  /\ (forall l c', step example_past_barrier l c' ->
                   remaining c' < remaining example_past_barrier).
Proof.
  apply (@save_never_hangs_at_barrier (example_job 1 true) 2).
  - reflexivity.
  - lia.
  - reflexivity.
  - reflexivity.
  - exact (proj1 example_execution).
Defined.

(** ** Stepping in a group *)

Lemma split_at_nth (A : Type) (d : A) (l : list A) (r : nat) :
  r < List.length l -> l = firstn r l ++ nth r l d :: skipn (S r) l.
Proof.
  revert l. induction r as [|r IH]; intros [|x l] Hr; simpl in *; try lia.
  - reflexivity.
  - f_equal. apply IH. lia.
Qed.

Lemma fold_left_add (l : list Z) (a : Z) : fold_left Z.add l a = (a + sumZ l)%Z.
Proof.
  revert a. induction l as [|x l IH]; intros a; simpl; [lia|]. rewrite IH. lia.
Qed.

Lemma sum_found_inf_sumZ (st : OptimizerState) :
  sum_found_inf st = sumZ (flags_of_state st).
Proof. unfold sum_found_inf, flags_of_state. now rewrite fold_left_add. Qed.

Lemma sumZ_nonneg (l : list Z) : Forall (fun x => (0 <= x)%Z) l -> (0 <= sumZ l)%Z.
Proof. induction 1 as [|x l Hx _ IH]; simpl; lia. Qed.

Lemma steps_iff_reduced_zero (St Args Ret : Type) (optimizer : Optimizer St Args Ret)
    (optimizer_state : OptimizerState) (args : Args) (others : list Z) :
  (step_invocations (_maybe_opt_step optimizer optimizer_state args others) = 1
   <-> all_reduce_MAX (sum_found_inf optimizer_state) others = 0%Z)
  /\ (step_invocations (_maybe_opt_step optimizer optimizer_state args others) = 0
      <-> all_reduce_MAX (sum_found_inf optimizer_state) others <> 0%Z).
Proof.
  unfold _maybe_opt_step.
  destruct (Z.eqb_spec (all_reduce_MAX (sum_found_inf optimizer_state) others) 0) as [E|E].
  - destruct (opt_step optimizer (opt_state optimizer) args). simpl.
    split; split; intros; try tauto; try discriminate; lia.
  - simpl. split; split; intros; try tauto; try discriminate; lia.
Qed.

Lemma member_sees_all_sums (states : list OptimizerState) (r : nat) (x : Z) :
  r < List.length states ->
  In x (sum_found_inf (nth r states no_inf_check) :: peers_sums states r)
  <-> In x (map sum_found_inf states).
Proof.
  intros Hr. unfold peers_sums.
  rewrite (split_at_nth no_inf_check states Hr) at 4.
  rewrite !map_app. simpl. rewrite !in_app_iff. simpl. tauto.
Qed.

(** X7: the members of a model-parallel group take the same decision in
    [_maybe_opt_step]: for the same optimizer, either every member calls
    [optimizer.step] or none does, whatever flags each of them found. *)
Theorem group_steps_together (St Args Ret : Type) (states : list OptimizerState)
    (r r' : nat) (optimizer optimizer' : Optimizer St Args Ret) (args args' : Args) :
  r < List.length states -> r' < List.length states ->
  step_invocations (_maybe_opt_step optimizer (nth r states no_inf_check) args
                      (peers_sums states r))
  = step_invocations (_maybe_opt_step optimizer' (nth r' states no_inf_check) args'
                        (peers_sums states r')).
Proof.
  intros Hr Hr'.
  assert (E : all_reduce_MAX (sum_found_inf (nth r states no_inf_check)) (peers_sums states r)
            = all_reduce_MAX (sum_found_inf (nth r' states no_inf_check))
                (peers_sums states r')).
  { apply all_reduce_MAX_same_values. intros x.
    now rewrite !member_sees_all_sums. }
  unfold _maybe_opt_step. rewrite E.
  destruct (_ =? 0)%Z; [|reflexivity].
  now destruct (opt_step optimizer _ _), (opt_step optimizer' _ _).
Qed.

Lemma group_steps_together_witness :
  step_invocations
    (_maybe_opt_step {| opt_state := 0; opt_step := fun st (_ : unit) => (S st, Some st) |}
       example_clean tt (peers_sums [example_clean; example_overflow] 0))
  = step_invocations
      (_maybe_opt_step {| opt_state := 5; opt_step := fun st (_ : unit) => (S st, Some st) |}
         example_overflow tt (peers_sums [example_clean; example_overflow] 1)).
Proof.
  apply (@group_steps_together nat unit nat [example_clean; example_overflow] 0 1);
    simpl; lia.
Defined.

Lemma reduced_zero_iff_no_flag (states : list OptimizerState) (r : nat) :
  r < List.length states ->
  Forall (fun st => Forall (fun f => (0 <= f)%Z) (flags_of_state st)) states ->
  all_reduce_MAX (sum_found_inf (nth r states no_inf_check)) (peers_sums states r) = 0%Z
  <-> Forall (fun st => Forall (fun f => f = 0%Z) (flags_of_state st)) states.
Proof.
  intros Hr Hpos.
  assert (Hsums : Forall (fun x => (0 <= x)%Z)
                    (sum_found_inf (nth r states no_inf_check) :: peers_sums states r)).
  { apply Forall_forall. intros x Hx.
    apply member_sees_all_sums, in_map_iff in Hx as (st & <- & Hst); [|exact Hr].
    rewrite sum_found_inf_sumZ. apply sumZ_nonneg.
    rewrite Forall_forall in Hpos. now apply Hpos. }
  pose proof (all_reduce_MAX_nonzero Hsums) as Hnz.
  split.
  - intros E. apply Forall_forall. intros st Hst.
    destruct (Z.eq_dec (sum_found_inf st) 0) as [E0|E0].
    + rewrite sum_found_inf_sumZ in E0.
      rewrite Forall_forall in Hpos. pose proof (Hpos st Hst) as Hp.
      apply Forall_forall. intros f Hf.
      destruct (Z.eq_dec f 0) as [|Hf0]; [assumption|]. exfalso.
      assert (sumZ (flags_of_state st) <> 0%Z); [|congruence].
      apply sumZ_nonzero; [exact Hp|]. apply Exists_exists. now exists f.
    + exfalso. apply Hnz; [|exact E]. apply Exists_exists.
      exists (sum_found_inf st). split; [|exact E0].
      apply member_sees_all_sums; [exact Hr|]. now apply in_map.
  - intros Hall.
    destruct (Z.eq_dec (all_reduce_MAX (sum_found_inf (nth r states no_inf_check))
                          (peers_sums states r)) 0) as [E|E]; [exact E|].
    exfalso. apply Hnz in E. apply Exists_exists in E as (x & Hx & Hx0).
    apply member_sees_all_sums, in_map_iff in Hx as (st & <- & Hst); [|exact Hr].
    apply Hx0. rewrite sum_found_inf_sumZ.
    rewrite Forall_forall in Hall. specialize (Hall st Hst).
    clear - Hall. induction Hall as [|f l -> _ IH]; simpl; [reflexivity | exact IH].
Qed.

(** X8: when the flags are non-negative, as the 0.0 and 1.0 of an inf check
    are, a member calls [optimizer.step] exactly when no member of the group
    has a flag set on any device for that optimizer. *)
Theorem steps_iff_no_overflow_in_group (St Args Ret : Type)
    (states : list OptimizerState) (r : nat)
    (optimizer : Optimizer St Args Ret) (args : Args) :
  r < List.length states ->
  Forall (fun st => Forall (fun f => (0 <= f)%Z) (flags_of_state st)) states ->
  step_invocations (_maybe_opt_step optimizer (nth r states no_inf_check) args
                      (peers_sums states r)) = 1
  <-> Forall (fun st => Forall (fun f => f = 0%Z) (flags_of_state st)) states.
Proof.
  intros Hr Hpos.
  destruct (steps_iff_reduced_zero optimizer (nth r states no_inf_check) args
              (peers_sums states r)) as [Hstep _].
  rewrite Hstep.
  now apply reduced_zero_iff_no_flag.
Qed.

Lemma steps_iff_no_overflow_in_group_witness :
  step_invocations
    (_maybe_opt_step {| opt_state := 0; opt_step := fun st (_ : unit) => (S st, Some st) |}
       example_clean tt (peers_sums [example_clean; example_clean] 0)) = 1.
Proof.
  apply (@steps_iff_no_overflow_in_group nat unit nat [example_clean; example_clean] 0).
  - simpl. lia.
  - repeat constructor; discriminate.
  - repeat constructor.
Defined.

(** ** Skipped steps and the scale update *)

Lemma member_combined_nonzero (g : group) (n r : nat) :
  Forall (fun flags => List.length flags = S n) g ->
  Forall (Forall (fun f => (0 <= f)%Z)) g ->
  r < List.length g ->
  exists combined,
    member_combined g r = Some combined
    /\ (combined <> 0%Z <-> any_flag_set g).
Proof.
  intros Hlen Hpos Hr.
  exists (sumZ (map (column_max g) (seq 0 (S n)))).
  split; [now apply member_combined_columns|].
  rewrite sumZ_nonzero.
  - rewrite (any_flag_set_columns Hlen), Exists_map.
    apply Exists_iff. intros i. now apply column_max_nonzero.
  - apply Forall_map, Forall_forall. intros i _. now apply column_max_nonzero.
Qed.

Lemma found_infs_flags (F : Type) (self : GradScaler F) :
  found_infs self = flags_of_member (map snd (_per_optimizer_states self)).
Proof.
  unfold found_infs, flags_of_member, flags_of_state.
  induction (_per_optimizer_states self) as [|s l IH]; simpl; [reflexivity|].
  now rewrite IH.
Qed.

(** X9: "if any optimizer steps were skipped the scale is multiplied by
    backoff_factor".  In a group whose members hold the same number of
    optimizers and of flags, each flag non-negative, the value a member's
    [update()] hands to the scale update is nonzero exactly when
    [_maybe_opt_step] skips the step of one of its optimizers. *)
Theorem backoff_iff_some_step_skipped (F St Args Ret : Type)
    (members : list (list OptimizerState)) (K n r : nat) (self : GradScaler F)
    (optimizer : Optimizer St Args Ret) (args : Args) :
  Forall (fun states => List.length states = K) members ->
  Forall (fun states => List.length (flags_of_member states) = S n) members ->
  Forall (Forall (fun st => Forall (fun f => (0 <= f)%Z) (flags_of_state st))) members ->
  r < List.length members ->
  map snd (_per_optimizer_states self) = nth r members [] ->
  exists combined,
    found_inf_combined (found_infs self) (others_of (map flags_of_member members) r)
    = Some combined
    /\ (combined <> 0%Z
        <-> exists k, k < K
            /\ step_invocations
                 (_maybe_opt_step optimizer (nth k (nth r members []) no_inf_check) args
                    (peers_sums (states_of_optimizer members k) r)) = 0).
Proof.
  intros HK Hlen Hpos Hr Hself.
  set (g := map flags_of_member members).
  assert (Hglen : Forall (fun flags => List.length flags = S n) g).
  { subst g. apply Forall_map. exact Hlen. }
  assert (Hgpos : Forall (Forall (fun f => (0 <= f)%Z)) g).
  { subst g. apply Forall_map. eapply Forall_impl; [|exact Hpos].
    intros states Hs. unfold flags_of_member. apply Forall_flat_map. exact Hs. }
  assert (Hgr : r < List.length g) by (subst g; now rewrite length_map).
  destruct (member_combined_nonzero Hglen Hgpos Hgr) as (combined & Hc & Hany).
  exists combined. split.
  - unfold member_combined in Hc. rewrite found_infs_flags, Hself.
    subst g. rewrite <- Hc. f_equal.
    change (nth r (map flags_of_member members) [])
      with (nth r (map flags_of_member members) (flags_of_member [])).
    now rewrite map_nth.
  - rewrite Hany. clear Hc Hany.
    assert (Hk : forall k,
      step_invocations
        (_maybe_opt_step optimizer (nth k (nth r members []) no_inf_check) args
           (peers_sums (states_of_optimizer members k) r)) = 0
      <-> ~ Forall (fun st => Forall (fun f => f = 0%Z) (flags_of_state st))
                   (states_of_optimizer members k)).
    { intros k.
      assert (Hrk : r < List.length (states_of_optimizer members k)).
      { unfold states_of_optimizer. now rewrite length_map. }
      assert (Hpk : Forall (fun st => Forall (fun f => (0 <= f)%Z) (flags_of_state st))
                      (states_of_optimizer members k)).
      { unfold states_of_optimizer. apply Forall_map, Forall_forall. intros states Hs.
        rewrite Forall_forall in Hpos. specialize (Hpos states Hs).
        destruct (Nat.lt_ge_cases k (List.length states)) as [Hlt|Hge].
        - rewrite Forall_forall in Hpos. apply Hpos, nth_In, Hlt.
        - rewrite nth_overflow by exact Hge. constructor. }
      assert (Enth : nth r (states_of_optimizer members k) no_inf_check
                     = nth k (nth r members []) no_inf_check).
      { unfold states_of_optimizer.
        rewrite (nth_indep _ no_inf_check (nth k [] no_inf_check))
          by now rewrite length_map.
        now rewrite (map_nth (fun states => nth k states no_inf_check)). }
      pose proof (reduced_zero_iff_no_flag Hrk Hpk) as S1.
      pose proof (steps_iff_reduced_zero optimizer
                    (nth r (states_of_optimizer members k) no_inf_check) args
                    (peers_sums (states_of_optimizer members k) r)) as [_ R0].
      rewrite Enth in S1, R0. rewrite R0, <- S1. tauto. }
    split.
    + intros (flags & f & Hflags & Hf & Hne).
      subst g. apply in_map_iff in Hflags as (states & <- & Hstates).
      unfold flags_of_member in Hf. apply in_flat_map in Hf as (st & Hst & Hf).
      destruct (In_nth states st no_inf_check Hst) as (k & Hklt & Ek).
      exists k. split.
      * rewrite Forall_forall in HK. now rewrite <- (HK states Hstates).
      * apply Hk. intros Hall. rewrite Forall_forall in Hall.
        assert (Hin : In st (states_of_optimizer members k)).
        { unfold states_of_optimizer. apply in_map_iff. now exists states. }
        specialize (Hall st Hin). rewrite Forall_forall in Hall.
        now apply Hne, Hall.
    + intros (k & Hklt & Hskip). apply Hk in Hskip.
      apply neg_Forall_Exists_neg in Hskip.
      2:{ intros st. clear. induction (flags_of_state st) as [|f l IH].
          - left. constructor.
          - destruct (Z.eq_dec f 0) as [->|Hf].
            + destruct IH as [IH|IH]; [left; now constructor|].
              right. intros H. inversion H. contradiction.
            + right. intros H. inversion H. contradiction. }
      apply Exists_exists in Hskip as (st & Hst & Hnz).
      unfold states_of_optimizer in Hst. apply in_map_iff in Hst as (states & <- & Hstates).
      assert (Hex : exists f, In f (flags_of_state (nth k states no_inf_check)) /\ f <> 0%Z).
      { clear - Hnz. induction (flags_of_state (nth k states no_inf_check)) as [|f l IH].
        - exfalso. apply Hnz. constructor.
        - destruct (Z.eq_dec f 0) as [->|Hf].
          + destruct IH as (f' & Hin & Hf').
            * intros H. apply Hnz. now constructor.
            * exists f'. split; [now right | exact Hf'].
          + exists f. split; [now left | exact Hf]. }
      destruct Hex as (f & Hf & Hne).
      exists (flags_of_member states), f. repeat split; try assumption.
      * subst g. now apply in_map.
      * unfold flags_of_member. apply in_flat_map.
        exists (nth k states no_inf_check). split; [|exact Hf].
        apply nth_In. rewrite Forall_forall in HK. now rewrite (HK states Hstates).
Qed.

Lemma backoff_iff_some_step_skipped_witness :
  exists combined,
    found_inf_combined (found_infs example_member_scaler)
      (others_of (map flags_of_member example_members) 0) = Some combined
    /\ combined <> 0%Z.
Proof.
  destruct (@backoff_iff_some_step_skipped QArith_base.Q nat unit nat
              example_members 2 1 0 example_member_scaler
              {| opt_state := 0; opt_step := fun st (_ : unit) => (S st, Some st) |} tt)
    as (combined & Hc & Hiff).
  - repeat constructor.
  - repeat constructor.
  - repeat constructor; discriminate.
  - simpl. lia.
  - reflexivity.
  - exists combined. split; [exact Hc|]. apply Hiff.
    exists 1. split; [lia | reflexivity].
Defined.

(** ** [update] on its own *)

(** X10: a disabled scaler is inert.  [update] returns at once: it never
    raises, not even without inf checks on record or with a [new_scale] that
    is no number, and it does not clear the record; and whatever sequence of
    operations is run, the scale and the growth tracker stay as they were. *)
Theorem disabled_scaler_is_inert (F : Type) (SF : Scalar F) (self : GradScaler F) :
  _enabled self = false ->
  (forall new_scale others, update self new_scale others = Returned self)
  /\ (forall ops, _scale (run self ops) = _scale self
                  /\ _growth_tracker (run self ops) = _growth_tracker self).
Proof.
  intros E. split.
  - intros new_scale others. unfold update. now rewrite E.
  - intros ops. unfold run. revert self E.
    induction ops as [|op ops IH]; intros self E; simpl; [split; reflexivity|].
    assert (K : _enabled (apply_operation self op) = false
                /\ _scale (apply_operation self op) = _scale self
                /\ _growth_tracker (apply_operation self op) = _growth_tracker self).
    { destruct op as [oid ost | new_scale others]; simpl; [now repeat split|].
      unfold update. rewrite E. simpl. now repeat split. }
    destruct K as (K1 & K2 & K3). destruct (IH _ K1) as [H1 H2].
    now rewrite H1, H2.
Qed.

Lemma disabled_scaler_is_inert_witness :
  update (GradScaler_init (QArith_base.Qmake 65536 1) (QArith_base.Qmake 2 1)
            (QArith_base.Qmake 1 2) 2000 false)
    (Some py_other) example_quiet_others
  = Returned (GradScaler_init (QArith_base.Qmake 65536 1) (QArith_base.Qmake 2 1)
                (QArith_base.Qmake 1 2) 2000 false).
Proof.
  apply (@disabled_scaler_is_inert _ _
           (GradScaler_init (QArith_base.Qmake 65536 1) (QArith_base.Qmake 2 1)
              (QArith_base.Qmake 1 2) 2000 false)).
  reflexivity.
Defined.

(** X11: an [update] that returns on an enabled scaler has cleared the
    record of inf checks, so a second [update()] straight after it, with no
    [_maybe_opt_step] in between, raises. *)
Theorem update_twice_raises (F : Type) (SF : Scalar F) (self self' : GradScaler F)
    (new_scale : option (new_scale_arg F)) (others others' : nat -> list Z) :
  _enabled self = true ->
  update self new_scale others = Returned self' ->
  _per_optimizer_states self' = []
  /\ update self' None others' = Raised (AssertionError no_inf_checks_msg).
Proof.
  intros E H.
  assert (P : _per_optimizer_states self' = [] /\ _enabled self' = true).
  { unfold update in H. rewrite E in H. simpl in H.
    destruct new_scale as [[v | elems requires_grad |]|].
    - injection H as <-. now split.
    - destruct elems as [|v [|w elems]]; try discriminate H.
      destruct requires_grad; [discriminate H|]. injection H as <-. now split.
    - discriminate H.
    - destruct (found_inf_combined (found_infs self) others); [|discriminate H].
      destruct (amp_update_scale _ _ _ _ _ _). injection H as <-. now split. }
  destruct P as [P1 P2]. split; [exact P1|].
  unfold update, found_infs. now rewrite P2, P1.
Qed.

Lemma update_twice_raises_witness :
  exists self',
    update example_scaler_overflowed None example_quiet_others = Returned self'
    /\ update self' None example_quiet_others
       = Raised (AssertionError no_inf_checks_msg).
Proof.
  exists (clear_per_optimizer_states
            (with_scale example_scaler_overflowed (QArith_base.Qmake 65536 2) 0%Z)).
  split; [reflexivity|].
  exact (proj2 (@update_twice_raises _ _ example_scaler_overflowed _ None
                  example_quiet_others example_quiet_others eq_refl eq_refl)).
Defined.

(** X12: a manual [update(new_scale)] is local.  With a float, or a
    one-element tensor that does not require gradients, it stores the value
    as the scale, keeps the growth tracker and clears the record of inf
    checks, and what the other members of the group hold plays no part; any
    other [new_scale] raises. *)
Theorem manual_update_is_local (F : Type) (SF : Scalar F) (self : GradScaler F)
    (new_scale : new_scale_arg F) (others : nat -> list Z) :
  _enabled self = true ->
  match new_scale with
  | py_float v | cuda_float_tensor [v] false =>
      update self (Some new_scale) others
      = Returned {| _enabled := true;
                    _scale := v;
                    _growth_tracker := _growth_tracker self;
                    _growth_factor := _growth_factor self;
                    _backoff_factor := _backoff_factor self;
                    _growth_interval := _growth_interval self;
                    _per_optimizer_states := [] |}
  | _ => update self (Some new_scale) others = Raised (AssertionError new_scale_reason)
  end.
Proof.
  intros E. unfold update. rewrite E. simpl.
  destruct new_scale as [v | elems requires_grad |].
  - unfold clear_per_optimizer_states, with_scale. simpl. now rewrite E.
  - destruct elems as [|v [|w elems]]; try reflexivity.
    destruct requires_grad; [reflexivity|].
    unfold clear_per_optimizer_states, with_scale. simpl. now rewrite E.
  - reflexivity.
Qed.

Lemma manual_update_is_local_witness :
  update example_scaler_overflowed
    (Some (cuda_float_tensor [QArith_base.Qmake 1 1; QArith_base.Qmake 2 1] false))
    example_quiet_others
  = Raised (AssertionError new_scale_reason).
Proof.
  exact (@manual_update_is_local _ _ example_scaler_overflowed
           (cuda_float_tensor [QArith_base.Qmake 1 1; QArith_base.Qmake 2 1] false)
           example_quiet_others eq_refl).
Defined.

(** ** Fetching a whole epoch *)

Lemma firstn_plus (A : Type) (a b : nat) (l : list A) :
  firstn (a + b) l = firstn a l ++ firstn b (skipn a l).
Proof.
  revert l. induction a as [|a IH]; intros l; simpl; [reflexivity|].
  destruct l as [|x l]; simpl; [now rewrite firstn_nil | now rewrite IH].
Qed.

Lemma skipn_plus (A : Type) (a b : nat) (l : list A) :
  skipn (a + b) l = skipn b (skipn a l).
Proof.
  revert l. induction a as [|a IH]; intros l; simpl; [reflexivity|].
  destruct l as [|x l]; simpl; [now rewrite skipn_nil | now rewrite IH].
Qed.

Lemma fetch_one_enough (Item : Type) (globals : Globals)
    (self : GlobalBatchDataFetcher Item) (items : list Item) :
  dataloader_iter self = Some items ->
  num_micro_batches self <= List.length items ->
  _fetch_next_batch globals self
  = ({| prefetch_batches := prefetch_batches self;
        store_on_device := store_on_device self;
        num_micro_batches := num_micro_batches self;
        dataloader_iter := Some (skipn (num_micro_batches self) items);
        fetched := fetched self + 1 |},
     Returned (firstn (num_micro_batches self) items)).
Proof.
  intros Hit Hn. unfold _fetch_next_batch. now rewrite Hit, draw_enough.
Qed.

Lemma fetch_one_short (Item : Type) (globals : Globals)
    (self : GlobalBatchDataFetcher Item) (items : list Item) :
  dataloader_iter self = Some items ->
  List.length items < num_micro_batches self ->
  _fetch_next_batch globals self
  = ({| prefetch_batches := prefetch_batches self;
        store_on_device := store_on_device self;
        num_micro_batches := num_micro_batches self;
        dataloader_iter := Some [];
        fetched := fetched self |},
     Raised StopIteration).
Proof.
  intros Hit Hn. unfold _fetch_next_batch. now rewrite Hit, draw_short.
Qed.

Lemma fetch_many_full (Item : Type) (globals : Globals) (k : nat) :
  forall (self : GlobalBatchDataFetcher Item) (items : list Item),
  dataloader_iter self = Some items ->
  k * num_micro_batches self <= List.length items ->
  exists self' batches,
    fetch_many globals k self = (self', batches, None)
    /\ List.concat batches = firstn (k * num_micro_batches self) items
    /\ Forall (fun batch => List.length batch = num_micro_batches self) batches
    /\ List.length batches = k
    /\ dataloader_iter self' = Some (skipn (k * num_micro_batches self) items)
    /\ fetched self' = fetched self + k
    /\ num_micro_batches self' = num_micro_batches self.
Proof.
  induction k as [|k IH]; intros self items Hit Hk.
  - exists self, []. simpl. repeat split; auto.
  - simpl in Hk. set (n := num_micro_batches self) in *.
    simpl. rewrite (fetch_one_enough globals self Hit) by (fold n; lia). fold n.
    set (next := {| prefetch_batches := prefetch_batches self;
                    store_on_device := store_on_device self;
                    num_micro_batches := n;
                    dataloader_iter := Some (skipn n items);
                    fetched := fetched self + 1 |}).
    destruct (IH next (skipn n items) eq_refl) as
      (self' & batches & E & Hc & Hl & Hlen & Hi & Hf & Hn).
    { simpl. rewrite length_skipn. lia. }
    simpl in Hc, Hl, Hi, Hf, Hn.
    exists self', (firstn n items :: batches). rewrite E. repeat split.
    + simpl. now rewrite Hc, firstn_plus.
    + constructor; [|exact Hl]. rewrite length_firstn. lia.
    + simpl. now rewrite Hlen.
    + now rewrite Hi, skipn_plus.
    + rewrite Hf. lia.
    + exact Hn.
Qed.

(** X13: as long as the iterator holds enough items, [k] calls of
    [_fetch_next_batch] in a row cut its first [k * num_micro_batches] items
    into [k] global batches of [num_micro_batches] items each, in order and
    without gap or overlap; the counter goes up by [k] and the iterator is
    left at the item after the last one returned. *)
Theorem consecutive_fetches_partition (Item : Type) (globals : Globals) (k : nat)
    (self : GlobalBatchDataFetcher Item) (items : list Item) :
  dataloader_iter self = Some items ->
  k * num_micro_batches self <= List.length items ->
  exists self' batches,
    fetch_many globals k self = (self', batches, None)
    /\ List.concat batches = firstn (k * num_micro_batches self) items
    /\ Forall (fun batch => List.length batch = num_micro_batches self) batches
    /\ List.length batches = k
    /\ dataloader_iter self' = Some (skipn (k * num_micro_batches self) items)
    /\ fetched self' = fetched self + k.
Proof.
  intros Hit Hk.
  destruct (fetch_many_full globals k self Hit Hk)
    as (self' & batches & E & Hc & Hl & Hlen & Hi & Hf & _).
  exists self', batches. auto 10.
Qed.

Lemma consecutive_fetches_partition_witness :
  exists self',
    fetch_many {| num_microbatches_calculator := 2 |} 2 example_fetcher
    = (self', [[10; 11]; [12; 13]], None)
    /\ dataloader_iter self' = Some [14]
    /\ fetched self' = 2.
Proof.
  destruct (@consecutive_fetches_partition nat {| num_microbatches_calculator := 2 |} 2
              example_fetcher [10; 11; 12; 13; 14] eq_refl)
    as (self' & batches & E & _ & _ & _ & Hi & Hf).
  - simpl. lia.
  - exists self'. split; [|split; [exact Hi | exact Hf]].
    rewrite E. f_equal. f_equal.
    vm_compute in E. now injection E.
Defined.

(** X14: an epoch.  With [num_micro_batches > 0] and [L] items in the
    iterator, calling [_fetch_next_batch] until it raises gives exactly
    [L / num_micro_batches] global batches, which are the first
    [(L / num_micro_batches) * num_micro_batches] items in order; the call
    after them raises [StopIteration] and leaves the iterator empty, so the
    [L mod num_micro_batches] items at the end are drawn but belong to no
    batch. *)
Theorem epoch_drops_incomplete_batch (Item : Type) (globals : Globals) (k : nat)
    (self : GlobalBatchDataFetcher Item) (items : list Item) :
  dataloader_iter self = Some items ->
  0 < num_micro_batches self ->
  List.length items / num_micro_batches self < k ->
  exists self' batches,
    fetch_many globals k self = (self', batches, Some StopIteration)
    /\ List.length batches = List.length items / num_micro_batches self
    /\ List.concat batches
       = firstn (List.length items / num_micro_batches self * num_micro_batches self) items
    /\ dataloader_iter self' = Some []
    /\ fetched self' = fetched self + List.length items / num_micro_batches self.
Proof.
  intros Hit Hn Hk.
  set (n := num_micro_batches self) in *.
  set (q := List.length items / n) in *.
  assert (Hq : q * n <= List.length items < q * n + n).
  { pose proof (Nat.div_mod_eq (List.length items) n) as D.
    pose proof (Nat.mod_upper_bound (List.length items) n ltac:(lia)) as U.
    fold q in D. nia. }
  clearbody q. revert k self items Hit n Hn Hk Hq.
  induction q as [|q IH]; intros k self items Hit n Hn Hk Hq.
  - destruct k as [|k]; [lia|]. simpl.
    rewrite (fetch_one_short globals self Hit) by (fold n; lia).
    eexists _, []. repeat split. simpl. lia.
  - destruct k as [|k]; [lia|]. simpl.
    rewrite (fetch_one_enough globals self Hit) by (fold n; lia). fold n.
    set (next := {| prefetch_batches := prefetch_batches self;
                    store_on_device := store_on_device self;
                    num_micro_batches := n;
                    dataloader_iter := Some (skipn n items);
                    fetched := fetched self + 1 |}).
    destruct (IH k next (skipn n items) eq_refl) as
      (self' & batches & E & Hlen & Hc & Hi & Hf).
    + exact Hn.
    + lia.
    + simpl. rewrite length_skipn. simpl in Hq. lia.
    + simpl in Hc, Hf. exists self', (firstn n items :: batches). rewrite E.
      repeat split.
      * simpl. now rewrite Hlen.
      * simpl. rewrite Hc. now rewrite firstn_plus.
      * exact Hi.
      * rewrite Hf. lia.
Qed.

Lemma epoch_drops_incomplete_batch_witness :
  exists self',
    fetch_many {| num_microbatches_calculator := 2 |} 10 example_fetcher
    = (self', [[10; 11]; [12; 13]], Some StopIteration)
    /\ dataloader_iter self' = Some [].
Proof.
  destruct (@epoch_drops_incomplete_batch nat {| num_microbatches_calculator := 2 |} 10
              example_fetcher [10; 11; 12; 13; 14] eq_refl)
    as (self' & batches & E & _ & _ & Hi & _).
  - simpl. lia.
  - simpl. lia.
  - exists self'. split; [|exact Hi].
    rewrite E. f_equal. f_equal.
    vm_compute in E. now injection E.
Defined.

(** ** What no operation of the scaler changes *)

Lemma apply_operation_keeps_configuration (F : Type) (SF : Scalar F)
    (self : GradScaler F) (op : operation F) :
  _enabled (apply_operation self op) = _enabled self
  /\ _growth_factor (apply_operation self op) = _growth_factor self
  /\ _backoff_factor (apply_operation self op) = _backoff_factor self
  /\ _growth_interval (apply_operation self op) = _growth_interval self.
Proof.
  destruct op as [oid ost | new_scale others]; simpl; [repeat split|].
  unfold update. destruct (_enabled self) eqn:E; simpl; [|repeat split; now rewrite ?E].
  destruct new_scale as [[v | elems requires_grad |]|]; simpl.
  - repeat split; now rewrite ?E.
  - destruct elems as [|v [|w elems]]; simpl; try (repeat split; now rewrite ?E).
    destruct requires_grad; simpl; repeat split; now rewrite ?E.
  - repeat split; now rewrite ?E.
  - destruct (found_inf_combined (found_infs self) others); simpl;
      [|repeat split; now rewrite ?E].
    destruct (amp_update_scale _ _ _ _ _ _). simpl. repeat split; now rewrite ?E.
Qed.

(** X15: no sequence of [_maybe_opt_step] and [update] calls, manual or
    not, raising or not, changes how the scaler was set up: whether it is
    enabled, its growth and backoff factors and its growth interval stay as
    constructed. *)
Theorem operations_keep_configuration (F : Type) (SF : Scalar F)
    (self : GradScaler F) (ops : list (operation F)) :
  _enabled (run self ops) = _enabled self
  /\ _growth_factor (run self ops) = _growth_factor self
  /\ _backoff_factor (run self ops) = _backoff_factor self
  /\ _growth_interval (run self ops) = _growth_interval self.
Proof.
  unfold run. revert self. induction ops as [|op ops IH]; intros self; simpl.
  - repeat split.
  - destruct (IH (apply_operation self op)) as (H1 & H2 & H3 & H4).
    destruct (@apply_operation_keeps_configuration F SF self op) as (K1 & K2 & K3 & K4).
    rewrite H1, H2, H3, H4. auto.
Qed.

(** ** The combined value is a count *)

Lemma indicator_sum (A : Type) (p : A -> bool) (l : list A) :
  sumZ (map (fun x => if p x then 1%Z else 0%Z) l)
  = Z.of_nat (List.length (filter p l)).
Proof.
  induction l as [|x l IH]; simpl; [reflexivity|].
  rewrite IH. destruct (p x); simpl List.length; lia.
Qed.

Lemma column_max_indicator (g : group) (i : nat) :
  Forall (Forall (fun f => f = 0%Z \/ f = 1%Z)) g ->
  column_max g i
  = if existsb (fun f => negb (f =? 0)%Z) (column g i) then 1%Z else 0%Z.
Proof.
  intros H01.
  assert (Hcol : Forall (fun x => x = 0%Z \/ x = 1%Z) (column g i)).
  { unfold column. apply Forall_map. eapply Forall_impl; [|exact H01].
    intros flags Hf. simpl.
    destruct (Nat.lt_ge_cases i (List.length flags)) as [Hi|Hi].
    - rewrite Forall_forall in Hf. apply Hf, nth_In, Hi.
    - rewrite nth_overflow by exact Hi. now left. }
  assert (Hpos : Forall (Forall (fun f => (0 <= f)%Z)) g).
  { eapply Forall_impl; [|exact H01]. intros flags Hf.
    eapply Forall_impl; [|exact Hf]. intros f [->| ->]; lia. }
  destruct (column_max_nonzero i Hpos) as [_ Hnz].
  assert (Hval : column_max g i = 0%Z \/ column_max g i = 1%Z).
  { unfold column_max. destruct (column g i) as [|x rest]; [now left|].
    pose proof (all_reduce_MAX_attained rest x) as Hin.
    rewrite Forall_forall in Hcol. now apply Hcol. }
  destruct (existsb (fun f => negb (f =? 0)%Z) (column g i)) eqn:E.
  - destruct Hval as [H0|H1]; [|exact H1]. exfalso.
    apply existsb_exists in E as (f & Hf & Hne).
    apply negb_true_iff, Z.eqb_neq in Hne.
    assert (column_max g i <> 0%Z); [|congruence].
    apply Hnz, Exists_exists. now exists f.
  - destruct Hval as [H0|H1]; [exact H0|]. exfalso.
    assert (Hne : column_max g i <> 0%Z) by lia.
    apply Hnz, Exists_exists in Hne as (f & Hf & Hne).
    assert (existsb (fun f => negb (f =? 0)%Z) (column g i) = true); [|congruence].
    apply existsb_exists. exists f. split; [exact Hf|].
    now apply negb_true_iff, Z.eqb_neq.
Qed.

(** X16: with flags that are 0 or 1, the value [update()] hands to the
    scale update is not a flag but a count: the number of flag positions at
    which some member of the group has found an overflow.  It can exceed 1. *)
Theorem combined_counts_positions (g : group) (n r : nat) :
  Forall (fun flags => List.length flags = S n) g ->
  Forall (Forall (fun f => f = 0%Z \/ f = 1%Z)) g ->
  r < List.length g ->
  member_combined g r = Some (Z.of_nat (positions_set g (S n))).
Proof.
  intros Hlen H01 Hr. rewrite (member_combined_columns Hlen Hr). f_equal.
  unfold positions_set. rewrite <- indicator_sum. f_equal.
  apply map_ext. intros i. now apply column_max_indicator.
Qed.

Lemma combined_counts_positions_witness :
  member_combined [[1; 0; 0]; [0; 0; 1]]%Z 0 = Some 2%Z.
Proof.
  apply (@combined_counts_positions [[1; 0; 0]; [0; 0; 1]]%Z 2 0).
  - repeat (apply Forall_cons; [reflexivity|]). apply Forall_nil.
  - repeat (apply Forall_cons || apply Forall_nil || (left; reflexivity)
            || (right; reflexivity)).
  - simpl. lia.
Defined.

(** ** [save_to] and the plain save *)

(** X17: whatever raises, [save_to] hands the save over to the base class
    exactly when model parallelism is not in use ([model_parallel_size] is
    [None] or at most 1); it then makes no other call, and with model
    parallelism in use it never calls the base class. *)
Theorem save_to_delegates_iff_no_model_parallel raises self env model save_path :
  (forall p, In (super_save_to p) (save_to_calls raises self env model save_path)
             <-> model_parallel_in_use (app_state env) = false /\ p = save_path)
  /\ (model_parallel_in_use (app_state env) = false ->
      save_to_calls raises self env model save_path = [super_save_to save_path]).
Proof.
  unfold save_to_calls. rewrite save_to_outcome.
  destruct (model_parallel_in_use (app_state env)).
  2:{ simpl. split; [|now destruct (raises (super_save_to save_path))].
      intros p. split.
      - intros [H|H]; [now injection H|].
        destruct (raises (super_save_to save_path)); destruct H.
      - intros [_ ->]. now left. }
  split; [|discriminate]. intros p. split; [|intros [H _]; discriminate H].
  intros H. exfalso.
  assert (Hb : ~ In (super_save_to p) (calls_before_merge self env model save_path)).
  { unfold calls_before_merge.
    destruct (data_parallel_rank (app_state env) =? 0)%nat, (dist_is_initialized env);
      simpl; intuition discriminate. }
  assert (Hi : forall T, ~ In (super_save_to p)
                 (calls_in_scratch self model save_path (fresh_tmpdir env) T)).
  { intros T Hin. rewrite calls_in_scratch_split in Hin.
    apply in_app_iff in Hin as [Hin|[Hin|[]]]; [|discriminate Hin].
    pose proof (calls_before_archive_kinds self model save_path (fresh_tmpdir env) T) as K.
    unfold calls_before_archive in Hin.
    rewrite !in_app_iff in Hin. destruct Hin as [Hin|[Hin|Hin]].
    - apply in_flat_map in Hin as (tp & _ & [Hx|[Hx|[]]]); discriminate Hx.
    - destruct Hin as [Hx|[]]. discriminate Hx.
    - destruct (has_artifacts model); simpl in Hin; intuition discriminate. }
  destruct (pipeline_model_parallel_size (app_state env) =? 1)%nat; [|destruct H].
  destruct (is_leader (app_state env)).
  - unfold run_leader in H.
    destruct (none_raises raises (calls_before_merge self env model save_path)).
    2:{ simpl in H. now apply in_cut_at_raise in H. }
    destruct (raises (TemporaryDirectory_enter (fresh_tmpdir env))); simpl in H.
    + apply in_app_iff in H as [H|[H|[]]]; [now apply Hb | discriminate H].
    + apply in_app_iff in H as [H|[H|H]]; [now apply Hb | discriminate H|].
      apply in_app_iff in H as [H|[H|[]]]; [|discriminate H].
      apply in_cut_at_raise in H. now apply Hi in H.
  - simpl in H. apply in_cut_at_raise, in_app_iff in H as [H|[H|[]]];
      [now apply Hb | discriminate H].
Qed.

(** ** Selecting the data fetcher *)

(** X18: [_select_data_fetcher] raises in one case only: outside sanity
    checking, while training, with a [training_step] that does not take
    [dataloader_iter], with [PL_INTER_BATCH_PARALLELISM] set to ["1"] and not
    on a GPU.  The warning is given exactly when the fetcher for
    [dataloader_iter] is returned, and the inter-batch fetcher is only ever
    returned on a GPU. *)
Theorem select_data_fetcher_raises_iff (trainer : TrainerView)
    (environ : string -> option string) :
  ((exists msg, _select_data_fetcher trainer environ = MisconfigurationException msg)
   <-> sanity_checking trainer = false
       /\ training trainer = true
       /\ training_step_takes_dataloader_iter trainer = false
       /\ environ "PL_INTER_BATCH_PARALLELISM" = Some "1"
       /\ on_gpu trainer = false)
  /\ (forall warned fetcher,
        _select_data_fetcher trainer environ = Selected warned fetcher ->
        (warned = true <-> fetcher = DataLoaderIterDataFetcher_)
        /\ (fetcher = InterBatchParallelDataFetcher_ -> on_gpu trainer = true)).
Proof.
  unfold _select_data_fetcher, os_getenv.
  destruct trainer as [sc tr it gpu]. simpl.
  destruct (environ "PL_INTER_BATCH_PARALLELISM") as [v|] eqn:Ev.
  - destruct (String.eqb_spec v "1") as [->|Hv];
      destruct sc, tr, it, gpu; simpl; split;
      try (split; [intros [msg H]; discriminate H
                  | intros (H1 & H2 & H3 & H4 & H5); try discriminate; congruence]);
      try (split; [intros _; repeat split; reflexivity | intros _; eexists; reflexivity]);
      intros warned fetcher H; try discriminate H;
      injection H as <- <-; (split; [split|]); intros; try discriminate; reflexivity.
  - destruct sc, tr, it, gpu; simpl; split;
      try (split; [intros [msg H]; discriminate H
                  | intros (H1 & H2 & H3 & H4 & H5); discriminate]);
      intros warned fetcher H; try discriminate H;
      injection H as <- <-; (split; [split|]); intros; try discriminate; reflexivity.
Qed.

(** X19: the global-batch fetcher of this module is what
    [_select_data_fetcher] returns during sanity checking and whenever the
    trainer is not training (validating, testing, predicting), whatever the
    environment says; while training it is returned exactly when the
    [training_step] does not take [dataloader_iter] and
    [PL_INTER_BATCH_PARALLELISM] is not ["1"]. *)
Theorem select_data_fetcher_global_batch (trainer : TrainerView)
    (environ : string -> option string) :
  (sanity_checking trainer = true \/ training trainer = false ->
   _select_data_fetcher trainer environ = Selected false GlobalBatchDataFetcher_)
  /\ (sanity_checking trainer = false -> training trainer = true ->
      ((exists warned, _select_data_fetcher trainer environ
                       = Selected warned GlobalBatchDataFetcher_)
       <-> training_step_takes_dataloader_iter trainer = false
           /\ environ "PL_INTER_BATCH_PARALLELISM" <> Some "1")).
Proof.
  unfold _select_data_fetcher, os_getenv.
  destruct trainer as [sc tr it gpu]. simpl. split.
  - intros [-> | ->]; [reflexivity|]. destruct sc; reflexivity.
  - intros -> ->. simpl.
    destruct (environ "PL_INTER_BATCH_PARALLELISM") as [v|].
    + destruct (String.eqb_spec v "1") as [->|Hv]; destruct it, gpu; simpl;
        (split; [intros [w H]; try discriminate H; split; congruence
                | intros [H1 H2]; try discriminate H1; try congruence;
                  eexists; reflexivity]).
    + destruct it; simpl;
        (split; [intros [w H]; try discriminate H; split; congruence
                | intros [H1 H2]; try discriminate H1; eexists; reflexivity]).
Qed.

(** ** The timer callbacks of the pretraining script *)

Section TimerLoop.

Variable Callback : Type.
Variable MaxTime : Type.
Variable isinstance_Timer : Callback -> bool.
Variable StatelessTimer : MaxTime -> Callback.

Lemma list_assign_split (before after : list Callback) (c x : Callback) :
  list_assign (before ++ c :: after) (List.length before) x = before ++ x :: after.
Proof. induction before as [|b before IH]; simpl; [reflexivity | now rewrite IH]. Qed.

Lemma override_timers_from (max_time : MaxTime) (done todo : list Callback) :
  fold_left (override_timer_at isinstance_Timer StatelessTimer max_time)
            (seq (List.length done) (List.length todo)) (done ++ todo)
  = done ++ map (fun c => if isinstance_Timer c then StatelessTimer max_time else c) todo.
Proof.
  revert done. induction todo as [|c todo IH]; intros done; simpl; [reflexivity|].
  unfold override_timer_at at 2.
  rewrite nth_error_app2 by lia. rewrite Nat.sub_diag. simpl.
  assert (E : forall x, fold_left (override_timer_at isinstance_Timer StatelessTimer max_time)
                  (seq (S (List.length done)) (List.length todo)) (done ++ x :: todo)
                = done ++ x :: map (fun c => if isinstance_Timer c
                                             then StatelessTimer max_time else c) todo).
  { intros x. specialize (IH (done ++ [x])).
    rewrite length_app, Nat.add_1_r, <- !app_assoc in IH. exact IH. }
  destruct (isinstance_Timer c); [rewrite list_assign_split|]; apply E.
Qed.

(** X20: the loop of [main] over [trainer.callbacks] replaces every
    callback that is a [Timer] by a [StatelessTimer(cfg.trainer.max_time)],
    where it stands, and leaves every other callback and the number and order
    of the callbacks as they were. *)
Theorem override_timers_replaces_in_place (max_time : MaxTime)
    (callbacks : list Callback) :
  override_timers isinstance_Timer StatelessTimer max_time callbacks
  = map (fun c => if isinstance_Timer c then StatelessTimer max_time else c) callbacks
  /\ List.length (override_timers isinstance_Timer StatelessTimer max_time callbacks)
     = List.length callbacks.
Proof.
  assert (E : override_timers isinstance_Timer StatelessTimer max_time callbacks
              = map (fun c => if isinstance_Timer c then StatelessTimer max_time else c)
                    callbacks).
  { unfold override_timers. exact (override_timers_from max_time [] callbacks). }
  split; [exact E|]. now rewrite E, length_map.
Qed.

End TimerLoop.

(** * The scale controller in a model-parallel group *)

(** ** Stepping on the maximum of the group *)

Lemma reduced_is_group_maximum (states : list OptimizerState) (r : nat) (m : Z) :
  r < List.length states ->
  is_group_maximum m (map device_sum states) ->
  all_reduce_MAX (sum_found_inf (nth r states no_inf_check)) (peers_sums states r) = m.
Proof.
  intros Hr [Hin Hmax].
  assert (E : map device_sum states = map sum_found_inf states).
  { apply map_ext. intros st. unfold device_sum. symmetry. apply sum_found_inf_sumZ. }
  rewrite E in Hin, Hmax. rewrite Forall_forall in Hmax.
  pose proof (all_reduce_MAX_attained (peers_sums states r)
                (sum_found_inf (nth r states no_inf_check))) as Hv.
  apply (member_sees_all_sums states _ Hr) in Hv. apply Hmax in Hv.
  apply (member_sees_all_sums states _ Hr) in Hin.
  assert (Hm : (m <= all_reduce_MAX (sum_found_inf (nth r states no_inf_check))
                       (peers_sums states r))%Z).
  { destruct Hin as [<-|Hin]; [apply all_reduce_MAX_bounds|].
    destruct (all_reduce_MAX_bounds (peers_sums states r)
                (sum_found_inf (nth r states no_inf_check))) as [_ B].
    rewrite Forall_forall in B. now apply B. }
  lia.
Qed.

(** C2: the members of a model-parallel group hold the states [states] for
    an optimizer, member [r] its [r]-th.  Let [m] be the maximum over the
    group of the per-device flags summed on each member.  Member [r]'s
    [_maybe_opt_step] calls the optimizer's [step] once, and returns what it
    returned, exactly when [m] is zero; when [m] is nonzero it does not call
    [step], leaves the optimizer alone and returns [None]. *)
Theorem maybe_opt_step_steps_iff_no_overflow (St Args Ret : Type)
    (optimizer : Optimizer St Args Ret) (args : Args)
    (states : list OptimizerState) (r : nat) (m : Z) :
  r < List.length states ->
  is_group_maximum m (map device_sum states) ->
  let out := _maybe_opt_step optimizer (nth r states no_inf_check) args
               (peers_sums states r) in
  let stepped := opt_step optimizer (opt_state optimizer) args in
  (step_invocations out = 1 <-> m = 0%Z)
  /\ (step_invocations out = 0 <-> m <> 0%Z)
  /\ (m = 0%Z ->
      retval out = snd stepped
      /\ opt_state (optimizer_after out) = fst stepped
      /\ opt_step (optimizer_after out) = opt_step optimizer)
  /\ (m <> 0%Z -> retval out = None /\ optimizer_after out = optimizer).
Proof.
  intros Hr Hm. cbv zeta. unfold _maybe_opt_step.
  rewrite (@reduced_is_group_maximum states r m Hr Hm).
  destruct (Z.eqb_spec m 0) as [E|E].
  - destruct (opt_step optimizer (opt_state optimizer) args) as [st ret] eqn:Es. simpl.
    repeat split; try tauto; try discriminate; try lia.
  - simpl. repeat split; try tauto; try discriminate; try lia.
Qed.

Lemma maybe_opt_step_steps_iff_no_overflow_witness :
  sum_found_inf example_clean = 0%Z
  /\ step_invocations (_maybe_opt_step example_optimizer example_clean tt
                         (peers_sums [example_clean; example_overflow] 0)) = 0
  /\ retval (_maybe_opt_step example_optimizer example_clean tt
               (peers_sums [example_clean; example_overflow] 0)) = None
  /\ step_invocations (_maybe_opt_step example_optimizer example_clean tt
                         (peers_sums [example_clean; example_clean] 0)) = 1
  /\ retval (_maybe_opt_step example_optimizer example_clean tt
               (peers_sums [example_clean; example_clean] 0)) = Some 0.
Proof.
  assert (H1 : is_group_maximum 1 (map device_sum [example_clean; example_overflow])).
  { split; [right; left; reflexivity|]. repeat constructor; discriminate. }
  assert (H0 : is_group_maximum 0 (map device_sum [example_clean; example_clean])).
  { split; [left; reflexivity|]. repeat constructor; discriminate. }
  destruct (@maybe_opt_step_steps_iff_no_overflow nat unit nat example_optimizer tt
              [example_clean; example_overflow] 0 1%Z ltac:(simpl; lia) H1)
    as (_ & Hskip & _ & Hnone).
  destruct (@maybe_opt_step_steps_iff_no_overflow nat unit nat example_optimizer tt
              [example_clean; example_clean] 0 0%Z ltac:(simpl; lia) H0)
    as (Hstep & _ & Hret & _).
  split; [reflexivity|].
  split; [apply Hskip; discriminate|].
  split; [apply Hnone; discriminate|].
  split; [apply Hstep; reflexivity|].
  apply (Hret eq_refl).
Defined.

(** ** Updating on the flags of the group *)

Lemma any_overflow_flag_set (members : list (list OptimizerState)) :
  any_overflow members <-> any_flag_set (map flags_of_member members).
Proof.
  unfold any_overflow, any_flag_set. split.
  - intros (states & st & f & Hs & Hst & Hf & Hne).
    exists (flags_of_member states), f. split; [now apply in_map|].
    split; [|exact Hne]. unfold flags_of_member. apply in_flat_map. now exists st.
  - intros (flags & f & Hflags & Hf & Hne).
    apply in_map_iff in Hflags as (states & <- & Hs).
    unfold flags_of_member in Hf. apply in_flat_map in Hf as (st & Hst & Hf).
    now exists states, st, f.
Qed.

(** The members of a group hold the states [members], member [r] those on
    record in its scaler.  Every member's [update()] hands the same value to
    the scale update, and that value is nonzero exactly when some flag of the
    group is. *)
Lemma update_in_group (members : list (list OptimizerState)) (n : nat) :
  Forall (fun states => List.length (flags_of_member states) = S n) members ->
  Forall (Forall (fun st => Forall (fun f => (0 <= f)%Z) (flags_of_state st))) members ->
  exists combined,
    (combined <> 0%Z <-> any_overflow members)
    /\ forall (F : Type) (SF : Scalar F) (self : GradScaler F) (r : nat),
         _enabled self = true ->
         r < List.length members ->
         map snd (_per_optimizer_states self) = nth r members [] ->
         found_inf_combined (found_infs self) (others_of (map flags_of_member members) r)
         = Some combined
         /\ update self None (others_of (map flags_of_member members) r)
            = Returned (clear_per_optimizer_states
                (with_scale self
                   (fst (amp_update_scale (_scale self) (_growth_tracker self) combined
                           (_growth_factor self) (_backoff_factor self)
                           (_growth_interval self)))
                   (snd (amp_update_scale (_scale self) (_growth_tracker self) combined
                           (_growth_factor self) (_backoff_factor self)
                           (_growth_interval self))))).
Proof.
  intros Hlen Hpos.
  set (g := map flags_of_member members).
  assert (Hglen : Forall (fun flags => List.length flags = S n) g).
  { subst g. apply Forall_map. exact Hlen. }
  assert (Hgpos : Forall (Forall (fun f => (0 <= f)%Z)) g).
  { subst g. apply Forall_map. eapply Forall_impl; [|exact Hpos].
    intros states Hs. unfold flags_of_member. apply Forall_flat_map. exact Hs. }
  exists (sumZ (map (column_max g) (seq 0 (S n)))). split.
  - rewrite any_overflow_flag_set. fold g. rewrite sumZ_nonzero.
    + rewrite (any_flag_set_columns Hglen), Exists_map.
      apply Exists_iff. intros i. now apply column_max_nonzero.
    + apply Forall_map, Forall_forall. intros i _. now apply column_max_nonzero.
  - intros F SF self r Hen Hr Hself.
    assert (Hgr : r < List.length g) by (subst g; now rewrite length_map).
    pose proof (member_combined_columns Hglen Hgr) as Hc.
    assert (Hfound : found_inf_combined (found_infs self) (others_of g r)
                     = Some (sumZ (map (column_max g) (seq 0 (S n))))).
    { unfold member_combined in Hc. rewrite found_infs_flags, Hself.
      rewrite <- Hc. f_equal. subst g.
      change (nth r (map flags_of_member members) [])
        with (nth r (map flags_of_member members) (flags_of_member [])).
      now rewrite map_nth. }
    split; [exact Hfound|].
    unfold update. rewrite Hen. simpl. rewrite Hfound.
    now destruct (amp_update_scale _ _ _ _ _ _).
Qed.

(** C1: the members of a model-parallel group hold the states [members],
    with equally many flags (at least one) on every member and every flag
    non-negative; member [r] is an enabled scaler with its states on record.
    Its [update()] without [new_scale] returns and clears the record, and
    with the group-reduced overflow flag of the spec (a logical OR on every
    member, then the maximum over the group): if the flag is nonzero, the
    scale is multiplied by the backoff factor and the tracker is 0, whatever
    it was; if it is zero and the tracker plus one is below the growth
    interval, the scale is kept and the tracker is one more; if it is zero
    and the tracker plus one equals the growth interval, the scale is
    multiplied by the growth factor and the tracker is 0.  The flag is
    nonzero exactly when some flag of some optimizer of some member is. *)
Theorem update_scale_transition (F : Type) (SF : Scalar F)
    (members : list (list OptimizerState)) (n r : nat) (self : GradScaler F) :
  _enabled self = true ->
  Forall (fun states => List.length (flags_of_member states) = S n) members ->
  Forall (Forall (fun st => Forall (fun f => (0 <= f)%Z) (flags_of_state st))) members ->
  r < List.length members ->
  map snd (_per_optimizer_states self) = nth r members [] ->
  let flag := spec_combined_flag (map flags_of_member members) r in
  (flag <> 0%Z <-> any_overflow members)
  /\ exists self',
       update self None (others_of (map flags_of_member members) r) = Returned self'
       /\ _per_optimizer_states self' = []
       /\ (flag <> 0%Z ->
           _scale self' = fmul (_scale self) (_backoff_factor self)
           /\ _growth_tracker self' = 0%Z)
       /\ (flag = 0%Z ->
           (_growth_tracker self + 1 < _growth_interval self)%Z ->
           _scale self' = _scale self
           /\ _growth_tracker self' = (_growth_tracker self + 1)%Z)
       /\ (flag = 0%Z ->
           (_growth_tracker self + 1 = _growth_interval self)%Z ->
           _scale self' = fmul (_scale self) (_growth_factor self)
           /\ _growth_tracker self' = 0%Z).
Proof.
  intros Hen Hlen Hpos Hr Hself flag.
  assert (Hflag : flag <> 0%Z <-> any_overflow members).
  { subst flag. rewrite any_overflow_flag_set.
    apply spec_combined_flag_nonzero. now rewrite length_map. }
  split; [exact Hflag|].
  destruct (update_in_group Hlen Hpos) as (combined & Hany & Hall).
  destruct (Hall F SF self r Hen Hr Hself) as [_ Hu].
  eexists. split; [exact Hu|]. simpl. split; [reflexivity|].
  unfold amp_update_scale.
  destruct (Z.eqb_spec combined 0) as [E0|E0].
  - assert (Hz : flag = 0%Z).
    { destruct (Z.eq_dec flag 0) as [Hz|Hz]; [exact Hz|].
      exfalso. apply Hflag, Hany in Hz. contradiction. }
    destruct (Z.eqb_spec (_growth_tracker self + 1) (_growth_interval self)) as [Eg|Eg];
      simpl; repeat split; intros; try lia; congruence.
  - assert (Hnz : flag <> 0%Z) by (apply Hflag, Hany, E0).
    simpl. repeat split; intros; congruence.
Qed.

Lemma update_scale_transition_witness :
  any_overflow example_members
  /\ found_infs example_member_scaler = [0; 0]%Z
  /\ exists self',
       update example_member_scaler None
         (others_of (map flags_of_member example_members) 0) = Returned self'
       /\ _scale self' = QArith_base.Qmult (QArith_base.Qmake 65536 1) (QArith_base.Qmake 1 2)
       /\ _growth_tracker self' = 0%Z.
Proof.
  destruct (@update_scale_transition QArith_base.Q Q_Scalar example_members 1 0
              example_member_scaler eq_refl)
    as (Hflag & self' & Hu & _ & Hov & _).
  - repeat constructor.
  - repeat constructor; discriminate.
  - simpl. lia.
  - reflexivity.
  - assert (Hne : spec_combined_flag (map flags_of_member example_members) 0 <> 0%Z)
      by discriminate.
    split; [apply Hflag, Hne|]. split; [reflexivity|].
    exists self'. split; [exact Hu|]. exact (Hov Hne).
Defined.

(** C7: in a group whose members have equally many flags on record (at
    least one), each flag non-negative, the value that the [update()] of an
    enabled member hands to the scale update is nonzero exactly when some
    flag of some optimizer of some member is nonzero; that is the decision
    the spec words as "logical OR, then one max-reduction"; and every
    member's [update()] hands over the very same value. *)
Theorem combined_overflow_decision (F : Type) (SF : Scalar F)
    (members : list (list OptimizerState)) (n r : nat) (self : GradScaler F) :
  _enabled self = true ->
  Forall (fun states => List.length (flags_of_member states) = S n) members ->
  Forall (Forall (fun st => Forall (fun f => (0 <= f)%Z) (flags_of_state st))) members ->
  r < List.length members ->
  map snd (_per_optimizer_states self) = nth r members [] ->
  exists combined,
    found_inf_combined (found_infs self) (others_of (map flags_of_member members) r)
    = Some combined
    /\ update self None (others_of (map flags_of_member members) r)
       = Returned (clear_per_optimizer_states
           (with_scale self
              (fst (amp_update_scale (_scale self) (_growth_tracker self) combined
                      (_growth_factor self) (_backoff_factor self)
                      (_growth_interval self)))
              (snd (amp_update_scale (_scale self) (_growth_tracker self) combined
                      (_growth_factor self) (_backoff_factor self)
                      (_growth_interval self)))))
    /\ (combined <> 0%Z <-> any_overflow members)
    /\ (combined <> 0%Z <-> spec_combined_flag (map flags_of_member members) r <> 0%Z)
    /\ (forall (peer : GradScaler F) (r' : nat),
          _enabled peer = true ->
          r' < List.length members ->
          map snd (_per_optimizer_states peer) = nth r' members [] ->
          found_inf_combined (found_infs peer)
            (others_of (map flags_of_member members) r') = Some combined
          /\ update peer None (others_of (map flags_of_member members) r')
             = Returned (clear_per_optimizer_states
                 (with_scale peer
                    (fst (amp_update_scale (_scale peer) (_growth_tracker peer) combined
                            (_growth_factor peer) (_backoff_factor peer)
                            (_growth_interval peer)))
                    (snd (amp_update_scale (_scale peer) (_growth_tracker peer) combined
                            (_growth_factor peer) (_backoff_factor peer)
                            (_growth_interval peer)))))).
Proof.
  intros Hen Hlen Hpos Hr Hself.
  destruct (update_in_group Hlen Hpos) as (combined & Hany & Hall).
  exists combined.
  destruct (Hall F SF self r Hen Hr Hself) as [Hc Hu].
  split; [exact Hc|]. split; [exact Hu|]. split; [exact Hany|].
  split.
  - rewrite Hany, any_overflow_flag_set. symmetry.
    apply spec_combined_flag_nonzero. now rewrite length_map.
  - intros peer r' Hen' Hr' Hpeer. exact (Hall F SF peer r' Hen' Hr' Hpeer).
Qed.

Lemma combined_overflow_decision_witness :
  found_infs example_member_scaler = [0; 0]%Z
  /\ found_infs example_peer_scaler = [0; 1]%Z
  /\ exists combined,
       combined <> 0%Z
       /\ update example_member_scaler None
            (others_of (map flags_of_member example_members) 0)
          = Returned (clear_per_optimizer_states
              (with_scale example_member_scaler
                 (fst (amp_update_scale (_scale example_member_scaler)
                         (_growth_tracker example_member_scaler) combined
                         (_growth_factor example_member_scaler)
                         (_backoff_factor example_member_scaler)
                         (_growth_interval example_member_scaler)))
                 (snd (amp_update_scale (_scale example_member_scaler)
                         (_growth_tracker example_member_scaler) combined
                         (_growth_factor example_member_scaler)
                         (_backoff_factor example_member_scaler)
                         (_growth_interval example_member_scaler)))))
       /\ found_inf_combined (found_infs example_peer_scaler)
            (others_of (map flags_of_member example_members) 1) = Some combined.
Proof.
  split; [reflexivity|]. split; [reflexivity|].
  destruct (@combined_overflow_decision QArith_base.Q Q_Scalar example_members 1 0
              example_member_scaler eq_refl)
    as (combined & Hc & Hu & Hany & _ & Hpeers).
  - repeat constructor.
  - repeat constructor; discriminate.
  - simpl. lia.
  - reflexivity.
  - exists combined. split.
    + apply Hany. exists [example_clean; example_overflow], example_overflow, 1%Z.
      simpl. repeat split; auto. discriminate.
    + split; [exact Hu|].
      apply (Hpeers example_peer_scaler 1 eq_refl); [simpl; lia | reflexivity].
Defined.

(** ** The sign of the scale in floating point *)

Lemma shr_1_nonneg (mrs : SpecFloat.shr_record) :
  (0 <= SpecFloat.shr_m mrs)%Z -> (0 <= SpecFloat.shr_m (SpecFloat.shr_1 mrs))%Z.
Proof.
  destruct mrs as [m r s]. destruct m as [|[p|p|]|p]; simpl; lia.
Qed.

Lemma iter_pos_invariant (A : Type) (P : A -> Prop) (f : A -> A) :
  (forall x, P x -> P (f x)) ->
  forall p x, P x -> P (SpecFloat.iter_pos f p x).
Proof.
  intros Hf. induction p as [p IH|p IH|]; intros x Hx; simpl; auto.
Qed.

Lemma shr_fexp_nonneg (prec emax m e : Z) (l : SpecFloat.location) :
  (0 <= m)%Z -> (0 <= SpecFloat.shr_m (fst (SpecFloat.shr_fexp prec emax m e l)))%Z.
Proof.
  intros Hm. unfold SpecFloat.shr_fexp, SpecFloat.shr.
  assert (H0 : (0 <= SpecFloat.shr_m (SpecFloat.shr_record_of_loc m l))%Z).
  { destruct l as [|[]]; exact Hm. }
  destruct (_ - e)%Z; simpl; try exact H0.
  apply (iter_pos_invariant (fun mrs => (0 <= SpecFloat.shr_m mrs)%Z));
    [exact shr_1_nonneg | exact H0].
Qed.

Lemma round_nearest_even_nonneg (m : Z) (l : SpecFloat.location) :
  (0 <= m)%Z -> (0 <= SpecFloat.round_nearest_even m l)%Z.
Proof.
  intros Hm. destruct l as [|[]]; simpl; try lia. destruct (Z.even m); lia.
Qed.

(** Rounding a product of positive numbers gives a zero (underflow), a
    positive number or plus infinity (overflow). *)
Lemma binary_round_aux_zero_or_positive (prec emax m e : Z) (l : SpecFloat.location) :
  (0 <= m)%Z ->
  zero_or_positive (SpecFloat.binary_round_aux prec emax false m e l).
Proof.
  intros Hm. unfold SpecFloat.binary_round_aux.
  pose proof (shr_fexp_nonneg prec emax e l Hm) as H1.
  destruct (SpecFloat.shr_fexp prec emax m e l) as [mrs' e']. simpl in H1.
  pose proof (shr_fexp_nonneg prec emax e' SpecFloat.loc_Exact
                (round_nearest_even_nonneg (SpecFloat.loc_of_shr_record mrs') H1)) as H2.
  destruct (SpecFloat.shr_fexp prec emax _ e' SpecFloat.loc_Exact) as [mrs'' e''].
  simpl in H2.
  destruct (SpecFloat.shr_m mrs'') as [|p|p]; [reflexivity| |lia].
  destruct (Z.leb e'' (emax - prec)); reflexivity.
Qed.

Lemma fmul_zero_or_positive (prec emax : Z) (x y : SpecFloat.spec_float) :
  zero_or_positive x ->
  SpecFloat.SFltb (SpecFloat.S754_zero false) y = true ->
  is_finite y = true ->
  zero_or_positive (SpecFloat.SFmul prec emax x y).
Proof.
  unfold zero_or_positive.
  destruct x as [sx|sx| |sx mx ex], y as [sy|sy| |sy my ey]; simpl;
    try discriminate; destruct sx, sy; simpl; try discriminate; try reflexivity.
  intros _ _ _. apply binary_round_aux_zero_or_positive. lia.
Qed.

Lemma positive_zero_or_positive (x : SpecFloat.spec_float) :
  SpecFloat.SFltb (SpecFloat.S754_zero false) x = true -> zero_or_positive x.
Proof.
  unfold zero_or_positive. destruct x as [s|s| |s m e]; simpl; try discriminate;
    destruct s; simpl; try discriminate; reflexivity.
Qed.

Lemma above_one_positive (prec : Z) (x : SpecFloat.spec_float) :
  SpecFloat.SFltb
    (SpecFloat.S754_finite false (Z.to_pos (2 ^ (prec - 1))) (1 - prec)) x = true ->
  SpecFloat.SFltb (SpecFloat.S754_zero false) x = true.
Proof.
  destruct x as [s|s| |s m e]; simpl; try discriminate;
    destruct s; simpl; try discriminate; reflexivity.
Qed.

Lemma below_one_finite (prec : Z) (x : SpecFloat.spec_float) :
  SpecFloat.SFltb (SpecFloat.S754_zero false) x = true ->
  SpecFloat.SFltb x
    (SpecFloat.S754_finite false (Z.to_pos (2 ^ (prec - 1))) (1 - prec)) = true ->
  is_finite x = true.
Proof.
  destruct x as [s|s| |s m e]; simpl; try discriminate; try reflexivity.
  destruct s; simpl; discriminate.
Qed.

Lemma apply_operation_zero_or_positive (prec emax : Z)
    (self : GradScaler SpecFloat.spec_float) (op : operation SpecFloat.spec_float) :
  sign_kept self -> manual_scale_zero_or_positive op ->
  sign_kept (@apply_operation _ (IEEE_Scalar prec emax) self op).
Proof.
  intros (Hs & Hg & Hb) Hop. unfold sign_kept. destruct op as [oid ost | new_scale others]; simpl.
  - repeat split; try assumption; apply Hg || apply Hb.
  - unfold update. destruct (_enabled self); simpl; [|now repeat split].
    destruct new_scale as [[v | elems requires_grad |]|]; simpl in *.
    + now repeat split.
    + destruct elems as [|v [|w elems]]; simpl; try (now repeat split).
      destruct requires_grad; simpl; [now repeat split|].
      inversion Hop; subst. now repeat split.
    + now repeat split.
    + destruct (found_inf_combined (found_infs self) others) as [combined|]; simpl;
        [|now repeat split].
      unfold amp_update_scale.
      destruct (combined =? 0)%Z; [destruct (_ =? _)%Z|]; simpl;
        (split; [|split; assumption]); try assumption;
        apply fmul_zero_or_positive; try assumption; apply Hg || apply Hb.
Qed.

Lemma run_zero_or_positive (prec emax : Z)
    (ops : list (operation SpecFloat.spec_float))
    (self : GradScaler SpecFloat.spec_float) :
  sign_kept self -> Forall manual_scale_zero_or_positive ops ->
  sign_kept (@run _ (IEEE_Scalar prec emax) self ops).
Proof.
  unfold run. revert self. induction ops as [|op ops IH]; intros self Hs Hops; simpl.
  - exact Hs.
  - inversion Hops; subst. apply IH; [|assumption].
    now apply apply_operation_zero_or_positive.
Qed.

(** C8 as stated fails, in two ways, on the scaler with the defaults of
    the source, which meets the claim's conditions.  [update(new_scale=0.0)]
    is accepted and makes the scale zero.  And with no manual scale at all,
    repeated backoff underflows: in binary64 the scale is still positive
    after 1090 iterations with an overflow and is 0.0 after the 1091st. *)
Lemma scale_can_become_zero :
  @positive _ binary64_Scalar (_scale binary64_scaler)
  /\ @flt _ binary64_Scalar (@fone _ binary64_Scalar) (_growth_factor binary64_scaler) = true
  /\ @positive _ binary64_Scalar (_backoff_factor binary64_scaler)
  /\ @flt _ binary64_Scalar (_backoff_factor binary64_scaler) (@fone _ binary64_Scalar) = true
  /\ _scale (@run _ binary64_Scalar binary64_scaler
               [do_update (Some (py_float (SpecFloat.S754_zero false))) (fun _ => [])])
     = SpecFloat.S754_zero false
  /\ @positive _ binary64_Scalar
       (_scale (@run _ binary64_Scalar binary64_scaler (overflowing_iterations 1090)))
  /\ _scale (@run _ binary64_Scalar binary64_scaler (overflowing_iterations 1091))
     = SpecFloat.S754_zero false
  /\ ~ (forall ops : list (operation SpecFloat.spec_float),
          @positive _ binary64_Scalar (_scale (@run _ binary64_Scalar binary64_scaler ops))).
Proof.
  repeat split; try (vm_compute; reflexivity).
  intros Hall. specialize (Hall (overflowing_iterations 1091)).
  vm_compute in Hall. discriminate Hall.
Qed.

(** The same in binary32, the format of a [torch.float32] tensor: positive
    after 165 iterations with an overflow, 0.0 after the 166th. *)
Remark binary32_scale_underflows :
  @positive _ binary32_Scalar
    (_scale (@run _ binary32_Scalar binary32_scaler (overflowing_iterations 165)))
  /\ _scale (@run _ binary32_Scalar binary32_scaler (overflowing_iterations 166))
     = SpecFloat.S754_zero false.
Proof. split; vm_compute; reflexivity. Qed.

(** C8, amended: in IEEE floating point of any precision, start from a
    construction with a positive initial scale, a finite growth factor above
    1 and a backoff factor strictly between 0 and 1.  After any sequence of
    [_maybe_opt_step] and [update] calls in which every manual [new_scale]
    leaves a zero or positive value in the scale, the scale is zero or
    positive: never negative and never a NaN.  Zero it can be, as shown
    above. *)
Theorem scale_never_negative (prec emax : Z)
    (init_scale growth_factor backoff_factor : SpecFloat.spec_float)
    (growth_interval : Z) (enabled : bool)
    (ops : list (operation SpecFloat.spec_float)) :
  @positive _ (IEEE_Scalar prec emax) init_scale ->
  @flt _ (IEEE_Scalar prec emax) (@fone _ (IEEE_Scalar prec emax)) growth_factor = true ->
  is_finite growth_factor = true ->
  @positive _ (IEEE_Scalar prec emax) backoff_factor ->
  @flt _ (IEEE_Scalar prec emax) backoff_factor (@fone _ (IEEE_Scalar prec emax)) = true ->
  Forall manual_scale_zero_or_positive ops ->
  zero_or_positive
    (_scale (@run _ (IEEE_Scalar prec emax)
               (GradScaler_init init_scale growth_factor backoff_factor
                  growth_interval enabled) ops)).
Proof.
  intros Hs Hg Hgf Hb Hb1 Hops.
  apply (@run_zero_or_positive prec emax ops
           (GradScaler_init init_scale growth_factor backoff_factor
              growth_interval enabled)); [|exact Hops].
  split; [apply positive_zero_or_positive; exact Hs|]. split.
  - split; [exact (above_one_positive prec _ Hg) | exact Hgf].
  - split; [exact Hb | exact (below_one_finite prec _ Hb Hb1)].
Qed.

Lemma scale_never_negative_witness :
  _scale (@run _ binary64_Scalar binary64_scaler example_float_run)
  = SpecFloat.S754_zero false
  /\ zero_or_positive (_scale (@run _ binary64_Scalar binary64_scaler example_float_run)).
Proof.
  split; [vm_compute; reflexivity|].
  apply (@scale_never_negative 53 1024
           (SpecFloat.S754_finite false 4503599627370496 (-36))
           (SpecFloat.S754_finite false 4503599627370496 (-51))
           (SpecFloat.S754_finite false 4503599627370496 (-53))
           2000 true example_float_run).
  - reflexivity.
  - reflexivity.
  - reflexivity.
  - reflexivity.
  - reflexivity.
  - repeat constructor.
Defined.

(** ** A shard write that raises *)

Lemma finished_worker_blocks_barrier (c0 : config) :
  (exists todo, In todo c0 /\ existsb is_barrier todo = false) ->
  forall c, reachable c0 c ->
    (exists todo, In todo c /\ existsb is_barrier todo = false)
    /\ forall c', ~ step c all_pass_barrier c'.
Proof.
  intros H0 c R.
  assert (Inv : exists todo, In todo c /\ existsb is_barrier todo = false).
  { induction R as [|c l c' R IH Hs]; [exact H0|].
    destruct IH as (todo & Hin & Hnb).
    destruct Hs as [before a rest after Ha | c Hne Hall].
    - apply in_app_iff in Hin as [Hin|[<-|Hin]].
      + exists todo. split; [apply in_app_iff; now left | exact Hnb].
      + exists rest. split; [apply in_app_iff; right; now left|].
        simpl in Hnb. now apply orb_false_iff in Hnb as [_ Hnb].
      + exists todo. split; [apply in_app_iff; right; now right | exact Hnb].
    - exfalso. rewrite Forall_forall in Hall.
      destruct (Hall todo Hin) as [rest ->]. discriminate Hnb. }
  split; [exact Inv|].
  intros c' Hs. inversion Hs as [|c1 Hne Hall]; subst.
  destruct Inv as (todo & Hin & Hnb).
  rewrite Forall_forall in Hall. destruct (Hall todo Hin) as [rest ->].
  discriminate Hnb.
Qed.

(** X21: with model parallelism in use and one pipeline stage, a worker
    of data-parallel rank 0 whose shard write raises makes no further call:
    [save_to] raises and the barrier is never reached.  In whatever world
    that worker runs, the barrier is then never passed, so its peers wait at
    it for good. *)
Theorem raising_shard_write_strands_peers raises self env model save_path (m : nat) :
  model_parallel_size (app_state env) = Some m -> 1 < m ->
  pipeline_model_parallel_size (app_state env) = 1 ->
  data_parallel_rank (app_state env) = 0 ->
  raises (save_state_dict_to_disk (state_dict model)
            (mp_model_weights self (Py.os_path_dirname save_path)
               (tensor_model_parallel_rank (app_state env)))) = true ->
  save_to_calls raises self env model save_path
  = [save_state_dict_to_disk (state_dict model)
       (mp_model_weights self (Py.os_path_dirname save_path)
          (tensor_model_parallel_rank (app_state env)))]
  /\ save_to_returns raises self env model save_path = false
  /\ forall before after c,
       reachable (before ++ save_to_calls raises self env model save_path :: after) c ->
       forall c', ~ step c all_pass_barrier c'.
Proof.
  intros Hm Hgt Hpp Hdp Hraise.
  assert (E : save_to raises self env model save_path []
              = ([save_state_dict_to_disk (state_dict model)
                    (mp_model_weights self (Py.os_path_dirname save_path)
                       (tensor_model_parallel_rank (app_state env)))], None)).
  { unfold save_to, model_parallel_in_use. rewrite Hm, Hpp, Hdp.
    destruct (Nat.ltb_spec 1 m) as [_|Hle]; [|lia]. simpl.
    unfold bind, call. simpl. now rewrite Hraise. }
  unfold save_to_calls, save_to_returns. rewrite E. simpl.
  split; [reflexivity|]. split; [reflexivity|].
  intros before after c R.
  refine (proj2 (@finished_worker_blocks_barrier _ _ c R)).
  eexists. split; [apply in_elt | reflexivity].
Qed.

Lemma raising_shard_write_strands_peers_witness :
  save_to_returns is_shard_write (job_connector (example_job 1 true))
    (worker_env (example_job 1 true) 1 0) (job_model (example_job 1 true) 1 0)
    (job_save_path (example_job 1 true)) = false
  /\ forall c,
       reachable [worker_calls (example_job 1 true) 0 0;
                  save_to_calls is_shard_write (job_connector (example_job 1 true))
                    (worker_env (example_job 1 true) 1 0)
                    (job_model (example_job 1 true) 1 0)
                    (job_save_path (example_job 1 true))] c ->
       forall c', ~ step c all_pass_barrier c'.
Proof.
  destruct (@raising_shard_write_strands_peers is_shard_write
              (job_connector (example_job 1 true))
              (worker_env (example_job 1 true) 1 0)
              (job_model (example_job 1 true) 1 0)
              (job_save_path (example_job 1 true)) 2 eq_refl ltac:(lia) eq_refl eq_refl
              eq_refl) as (_ & Hret & Hstuck).
  split; [exact Hret|].
  intros c R. exact (Hstuck [worker_calls (example_job 1 true) 0 0] [] c R).
Defined.
